(** * The 3D panel's use of the coordinate-frame transform tree

    A shallow embedding of the parts of the ThreeDeeRender panel that feed
    and query the transform tree:

    - [NormalizeMessages]: normalizeMessages.ts, the decoding of partial
      ROS messages into fully populated records;
    - [Transforms]: the data model of the [./transforms] module, which the
      panel imports but which is not among the sources;
    - [LayerErrors]: the keyed diagnostics store of the settings layer;
    - [Renderer]: Renderer.defaultFrameId, addCoordinateFrame,
      addTransformMessage and _updateFrames;
    - [SceneExtension]: SceneExtension.startFrame;
    - [Measures] and [Scenario]: the quantities the properties are stated
      with, and concrete trees, renderers and messages to run the model on;
    - [NormalizeRest], [Populated] and [Markers]: the other normalisers of
      normalizeMessages.ts and normalizeMarker of renderables/Markers.ts;
    - [Dispatch]: Renderer.addDatatypeSubscriptions and addMessageEvent,
      and the topics the panel subscribes to (ThreeDeeRender.tsx);
    - [SettingsTree]: buildLayerNode and buildSettingsTree of settings.ts;
    - [FoxgloveGrid]: the field layout check and the value ranges of
      renderables/FoxgloveGrid.ts.

    The properties follow the definitions: the defaults of
    normalizeQuaternion, the retention window, frame selection, ingestion
    of transforms, pose resolution per renderable, and the fallback of
    defaultFrameId; then round trips of the normalisers, the frames of the
    renderer over time, message dispatch, visible and hidden renderables,
    the settings tree and the grid fields.

    JavaScript numbers are IEEE 754 binary64 values and are modelled by
    Rocq's primitive floats; bigint values are modelled by [Z]. *)

From Stdlib Require Import ZArith Floats Lia.
From stdpp Require Import base option list strings gmap.

Local Open Scope Z_scope.

(** ** JavaScript values *)

(** A JavaScript number. *)
Abbreviation number := float.

(** [x ?? d]: the nullish coalescing operator, on a possibly absent value. *)
Definition nullish {A : Type} (x : option A) (d : A) : A :=
  match x with
  | Some v => v
  | None => d
  end.

Infix "??" := nullish (at level 45, left associativity).

(** [Number.isFinite]. *)
Definition isFinite (v : number) : bool :=
  negb (PrimFloat.is_nan v || PrimFloat.is_infinity v).

(** [BigInt(v)] for a number [v]: the integer [v] denotes, and a RangeError
    ([None]) when [v] is not an integer. *)
Definition BigInt (v : number) : option Z :=
  match Prim2SF v with
  | S754_zero _ => Some 0
  | S754_finite s m e =>
      let magnitude :=
        if 0 <=? e then Some (Z.pos m * 2 ^ e)
        else if Z.pos m mod 2 ^ (- e) =? 0 then Some (Z.pos m / 2 ^ (- e))
        else None in
      (fun z : Z => if s then - z else z) <$> magnitude
  | S754_infinity _ | S754_nan => None
  end.

(** ** Message types (ros.ts) and their partial, as-received forms *)

Module Ros.

Record Time := mkTime { sec : Z; nsec : Z }.

Record Vector3 := mkVector3 { x : number; y : number; z : number }.

Record Quaternion := mkQuaternion {
  qx : number; qy : number; qz : number; qw : number }.

Record Transform := mkTransform {
  translation : Vector3;
  rotation : Quaternion }.

Record Header := mkHeader {
  frame_id : string;
  stamp : Time;
  seq : option Z }.

Record TransformStamped := mkTransformStamped {
  header : Header;
  child_frame_id : string;
  transform : Transform }.

Record TFMessage := mkTFMessage { transforms : list TransformStamped }.

(** [Partial<T>] and [DeepPartial<T>]: every field may be missing. *)

Record PartialTime := mkPartialTime {
  sec_opt : option Z; nsec_opt : option Z }.

Record PartialVector3 := mkPartialVector3 {
  x_opt : option number; y_opt : option number; z_opt : option number }.

Record PartialQuaternion := mkPartialQuaternion {
  qx_opt : option number; qy_opt : option number;
  qz_opt : option number; qw_opt : option number }.

Record RawTransform := mkRawTransform {
  translation_opt : option PartialVector3;
  rotation_opt : option PartialQuaternion }.

Record RawHeader := mkRawHeader {
  frame_id_opt : option string;
  stamp_opt : option PartialTime;
  seq_opt : option Z }.

Record RawTransformStamped := mkRawTransformStamped {
  header_opt : option RawHeader;
  child_frame_id_opt : option string;
  transform_opt : option RawTransform }.

Record RawTFMessage := mkRawTFMessage {
  transforms_opt : option (list RawTransformStamped) }.

(** [toNanoSec] of @foxglove/rostime. *)
Definition toNanoSec (t : Time) : Z := sec t * 1000000000 + nsec t.

End Ros.

(** ** normalizeMessages.ts *)

Module NormalizeMessages.
Import Ros.

Definition normalizeTime (time : option PartialTime) : Time :=
  match time with
  | None => {| sec := 0; nsec := 0 |}
  | Some time => {| sec := sec_opt time ?? 0; nsec := nsec_opt time ?? 0 |}
  end.

Definition normalizeVector3 (vector : option PartialVector3) : Vector3 :=
  match vector with
  | None => {| x := 0; y := 0; z := 0 |}
  | Some vector =>
      {| x := x_opt vector ?? 0%float;
         y := y_opt vector ?? 0%float;
         z := z_opt vector ?? 0%float |}
  end.

Definition normalizeQuaternion (quat : option PartialQuaternion) : Quaternion :=
  match quat with
  | None => {| qx := 0; qy := 0; qz := 0; qw := 1 |}
  | Some quat =>
      {| qx := qx_opt quat ?? 0%float;
         qy := qy_opt quat ?? 0%float;
         qz := qz_opt quat ?? 0%float;
         qw := qw_opt quat ?? 0%float |}
  end.

Definition normalizeHeader (header : option RawHeader) : Header :=
  {| frame_id := (header ≫= frame_id_opt) ?? EmptyString;
     stamp := normalizeTime (header ≫= stamp_opt);
     seq := header ≫= seq_opt |}.

Definition normalizeTransform (transform : option RawTransform) : Transform :=
  {| translation := normalizeVector3 (transform ≫= translation_opt);
     rotation := normalizeQuaternion (transform ≫= rotation_opt) |}.

Definition normalizeTransformStamped
    (transform : option RawTransformStamped) : TransformStamped :=
  {| header := normalizeHeader (transform ≫= header_opt);
     child_frame_id := (transform ≫= child_frame_id_opt) ?? EmptyString;
     transform := normalizeTransform (transform ≫= transform_opt) |}.

Definition normalizeTFMessage (tfMessage : option RawTFMessage) : TFMessage :=
  {| transforms :=
       normalizeTransformStamped ∘ Some <$> ((tfMessage ≫= transforms_opt) ?? []) |}.

(** The identity rotation and the all-zero quaternion. *)
Definition identityQuaternion : Quaternion :=
  {| qx := 0; qy := 0; qz := 0; qw := 1 |}.

Definition zeroQuaternion : Quaternion :=
  {| qx := 0; qy := 0; qz := 0; qw := 0 |}.

(** A rotation object that is present but has no component set: [{}]. *)
Definition emptyQuaternion : PartialQuaternion :=
  {| qx_opt := None; qy_opt := None; qz_opt := None; qw_opt := None |}.

(** The squared norm [x² + y² + z² + w²] of a quaternion. *)
Definition squaredNorm (q : Quaternion) : number :=
  (qx q * qx q + qy q * qy q + qz q * qz q + qw q * qw q)%float.

End NormalizeMessages.

(** ** The transform tree (./transforms) *)

Module Transforms.

(** Modelled from the spec: the [./transforms] module (Transform, Frame and
    TransformTree, sections 3 and 4.1 to 4.3 of the specification) is
    imported by the panel but is not among the sources.  A transform is a
    translation (3 floats) and a rotation (4 floats), stored as handed to
    the constructor. *)
Record Transform := mkTransform {
  position : number * number * number;
  rotation : number * number * number * number }.

(** Modelled from the spec: an edge is a timestamp in nanoseconds, the
    parent frame identifier and the transform child-relative-to-parent. *)
Record Edge := mkEdge {
  timestamp : Z;
  parentId : string;
  transform : Transform }.

(** Modelled from the spec: a frame is a unique string identifier with a
    time-ordered sequence of edges. *)
Record Frame := mkFrame {
  id : string;
  edges : list Edge }.

(** Modelled from the spec: what the tree logs when it rejects an incoming
    transform without raising: self-parenting (section 4.3) or a malformed
    transform (section 7). *)
Inductive Rejection :=
  | SelfParenting (frameId : string) (time : Z)
  | MalformedTransform (childId parentFrameId : string) (time : Z).

(** Modelled from the spec: the tree is a mapping from frame identifier to
    frame together with a retention duration in nanoseconds.  The mapping
    is a JavaScript [Map], iterated in insertion order: a list of frames,
    each stored under its own [id].  The rejections logged so far are kept
    with it. *)
Record TransformTree := mkTransformTree {
  frames : list Frame;
  retention : Z;
  rejections : list Rejection }.

(** Modelled from the spec: whether two transforms are the same value,
    number by number; used for the result of [addEdge]. *)
Definition number_eqb (a b : number) : bool := PrimFloat.Leibniz.eqb a b.

(** Modelled from the spec: see [number_eqb]. *)
Definition Transform_eqb (a b : Transform) : bool :=
  let '(ax, ay, az) := position a in
  let '(bx, by_, bz) := position b in
  let '(ai, aj, ak, aw) := rotation a in
  let '(bi, bj, bk, bw) := rotation b in
  number_eqb ax bx && number_eqb ay by_ && number_eqb az bz &&
  number_eqb ai bi && number_eqb aj bj && number_eqb ak bk && number_eqb aw bw.

(** Modelled from the spec: the malformed transforms of section 7, those
    with a number that is not finite or with a rotation that cannot be
    normalised because its norm is not a positive number. *)
Definition finiteNumbers (tf : Transform) : bool :=
  let '(px, py, pz) := position tf in
  let '(qi, qj, qk, qw) := rotation tf in
  isFinite px && isFinite py && isFinite pz &&
  isFinite qi && isFinite qj && isFinite qk && isFinite qw.

(** Modelled from the spec: see [finiteNumbers]. *)
Definition normalizable (tf : Transform) : bool :=
  let '(qi, qj, qk, qw) := rotation tf in
  (0 <? qi * qi + qj * qj + qk * qk + qw * qw)%float.

(** Modelled from the spec: see [finiteNumbers]. *)
Definition malformed (tf : Transform) : bool :=
  negb (finiteNumbers tf) || negb (normalizable tf).

(** *** Frame *)

(** Modelled from the spec: [latestParent] is the parent id of the most
    recent edge, or none if the frame has no edges. *)
Definition latestEdge (f : Frame) : option Edge := last (edges f).

(** Modelled from the spec: see [latestEdge]. *)
Definition latestParent (f : Frame) : option string := parentId <$> latestEdge f.

(** Modelled from the spec: insertion in time order; an edge at exactly
    the same timestamp is replaced. *)
Fixpoint insertEdge (e : Edge) (es : list Edge) : list Edge :=
  match es with
  | [] => [e]
  | e' :: rest =>
      if timestamp e <? timestamp e' then e :: e' :: rest
      else if timestamp e =? timestamp e' then e :: rest
      else e' :: insertEdge e rest
  end.

(** Modelled from the spec: whether the effective parent and the latest
    transform are the same before and after. *)
Definition Edge_sameLatest (a b : option Edge) : bool :=
  match a, b with
  | Some a, Some b =>
      String.eqb (parentId a) (parentId b) && Transform_eqb (transform a) (transform b)
  | None, None => true
  | _, _ => false
  end.

(** Modelled from the spec: [addEdge] inserts in time order and returns
    whether the frame's effective parent or latest transform changed. *)
Definition addEdge (f : Frame) (time : Z) (parent : string) (tf : Transform)
    : Frame * bool :=
  let f' := {| id := id f; edges := insertEdge (mkEdge time parent tf) (edges f) |} in
  (f', negb (Edge_sameLatest (latestEdge f) (latestEdge f'))).

(** Modelled from the spec: [prune(now, retention)] drops the edges older
    than [now - retention] and always keeps at least the most recent
    edge. *)
Definition prune (now retentionNs : Z) (f : Frame) : Frame :=
  let kept := List.filter (fun e => now - retentionNs <=? timestamp e) (edges f) in
  {| id := id f;
     edges := match kept, latestEdge f with
              | [], Some latest => [latest]
              | _, _ => kept
              end |}.

(** *** TransformTree *)

(** Modelled from the spec: [new TransformTree(retention)], a tree with no
    frames and the configured retention duration. *)
Definition emptyTree (retentionNs : Z) : TransformTree :=
  {| frames := []; retention := retentionNs; rejections := [] |}.

(** Modelled from the spec: pruning is lazy and relative to "now"
    (sections 3 and 8): when the current time has advanced to [now], every
    frame is pruned with the retention of the tree.  Insertion itself drops
    nothing. *)
Definition pruneAt (now : Z) (t : TransformTree) : TransformTree :=
  {| frames := prune now (retention t) <$> frames t;
     retention := retention t;
     rejections := rejections t |}.

(** Modelled from the spec: a rejection is logged. *)
Definition reject (t : TransformTree) (why : Rejection) : TransformTree :=
  {| frames := frames t; retention := retention t; rejections := rejections t ++ [why] |}.

(** Modelled from the spec: [frame(id)], a non-mutating lookup. *)
Definition frame (t : TransformTree) (frameId : string) : option Frame :=
  List.find (fun f => String.eqb (id f) frameId) (frames t).

(** Modelled from the spec: [hasFrame(id)], a non-mutating lookup. *)
Definition hasFrame (t : TransformTree) (frameId : string) : bool :=
  match frame t frameId with
  | Some _ => true
  | None => false
  end.

(** Modelled from the spec: [getOrCreateFrame] is idempotent; a new frame
    is created empty. *)
Definition getOrCreateFrame (t : TransformTree) (frameId : string) : TransformTree :=
  if hasFrame t frameId then t
  else {| frames := frames t ++ [mkFrame frameId []];
          retention := retention t;
          rejections := rejections t |}.

(** Modelled from the spec: the frame stored under the identifier of [f']
    becomes [f']. *)
Definition replaceFrame (f' : Frame) (fs : list Frame) : list Frame :=
  (fun f => if String.eqb (id f) (id f') then f' else f) <$> fs.

(** Modelled from the spec: [addTransform] creates both frames if needed (a
    frame is created the first time its identifier appears in any incoming
    transform, section 3), rejects a malformed transform (section 7: it is
    logged and its edge is dropped) and self-parenting (section 4.3)
    without raising, delegates to [addEdge] on the child frame, and returns
    whether the topology changed (new frame, new parent) as opposed to only
    timing. *)
Definition addTransform (t : TransformTree) (childId parentFrameId : string)
    (time : Z) (tf : Transform) : TransformTree * bool :=
  let newFrame := negb (hasFrame t childId) || negb (hasFrame t parentFrameId) in
  let t1 := getOrCreateFrame (getOrCreateFrame t childId) parentFrameId in
  if malformed tf then (reject t1 (MalformedTransform childId parentFrameId time), newFrame)
  else if String.eqb childId parentFrameId then (reject t1 (SelfParenting childId time), newFrame)
  else
    match frame t1 childId with
    | None => (t1, newFrame)
    | Some child =>
        let child' := fst (addEdge child time parentFrameId tf) in
        let newParent :=
          negb (bool_decide (latestParent child = latestParent child')) in
        ({| frames := replaceFrame child' (frames t1);
            retention := retention t1;
            rejections := rejections t1 |},
         newFrame || newParent)
    end.

(** Modelled from the spec: [root] follows the [latestParent] chain until
    a frame with no parent is reached.  A chain longer than the number of
    known frames revisits a frame; the walk is cut off there instead of
    looping. *)
Fixpoint rootFrom (t : TransformTree) (fuel : nat) (f : Frame) : Frame :=
  match fuel with
  | O => f
  | S fuel' =>
      match latestParent f ≫= frame t with
      | Some parent => rootFrom t fuel' parent
      | None => f
      end
  end.

(** Modelled from the spec: [frame.root()], see [rootFrom]. *)
Definition root (t : TransformTree) (f : Frame) : Frame :=
  rootFrom t (length (frames t)) f.

End Transforms.

(** ** Diagnostics (./LayerErrors) *)

Module LayerErrors.

(** A settings path: a list of segments. *)
Definition Path := list string.

(** Modelled from the spec: the diagnostics store of the settings layer is
    not among the sources.  It is a keyed error state, present or absent,
    keyed by an opaque path plus an error code. *)
Abbreviation LayerErrors := (gmap (list string * string) string).

(** Modelled from the spec: the store with no diagnostic. *)
Definition empty : LayerErrors := ∅.

(** Modelled from the spec: [add] makes the diagnostic present under the
    path and error code, with the given message. *)
Definition add (errors : LayerErrors) (path : Path) (errorId message : string)
    : LayerErrors :=
  <[(path, errorId) := message]> errors.

(** Modelled from the spec: [remove] makes the diagnostic under the path
    and error code absent. *)
Definition remove (errors : LayerErrors) (path : Path) (errorId : string)
    : LayerErrors :=
  delete (path, errorId) errors.

(** Modelled from the spec: the diagnostic present under a path and error
    code, if any. *)
Definition errorAt (errors : LayerErrors) (path : Path) (errorId : string)
    : option string :=
  errors !! (path, errorId).

End LayerErrors.


(** ** Collaborators that stay abstract *)

(** A select-box entry (settings.ts). *)
Record SelectEntry := mkSelectEntry { label : string; value : string }.

(** The operations the panel calls whose results are floating-point geometry
    or display text: the display list of frames, pose resolution between two
    frames at a time with composition and inversion of transforms, and the
    error code and text of the missing-transform diagnostic.  They are not among the
    sources and nothing below depends on what they compute, so every
    statement holds for any choice of them.  The same goes for [clearPath]
    of the diagnostics store: neither the sources nor the specification say
    which diagnostics it drops. *)
Class Externals := {
  clearPath : LayerErrors.LayerErrors -> LayerErrors.Path -> LayerErrors.LayerErrors;
  frameList : Transforms.TransformTree -> list SelectEntry;
  resolvePose :
    Transforms.TransformTree -> string -> string -> Z -> option Transforms.Transform;
  compose : Transforms.Transform -> Transforms.Transform -> Transforms.Transform;
  invert : Transforms.Transform -> Transforms.Transform;
  MISSING_TRANSFORM : string;
  missingTransformMessage : string -> string -> string -> string }.

(** ** Renderer.ts *)

Module Renderer.
Import Transforms.

(** The events of [RendererEvents] that the modelled methods emit. *)
Inductive RendererEvent :=
  | transformTreeUpdated
  | settingsTreeChange
  | configChange.

(** The lines the modelled methods pass to [log.debug]. *)
Inductive LogLine :=
  | AddedCoordinateFrame (frameId : string)
  | AddedTransform (parentFrameId childFrameId : string)
  | UpdatedTransform (parentFrameId childFrameId : string)
  | SettingRenderFrame (frameId : string)
  | SettingFixedFrame (frameId : string)
  | ChangingFixedFrame (oldFrameId newFrameId : string).

(** The fields of the [Renderer] class that the modelled methods read or
    write, with the emitted events and the debug log made explicit. *)
Record Renderer := mkRenderer {
  transformTree : TransformTree;
  coordinateFrameList : list SelectEntry;
  currentTime : option Z;
  fixedFrameId : option string;
  renderFrameId : option string;
  emitted : list RendererEvent;
  debugLog : list LogLine }.

Definition setTransformTree (r : Renderer) (t : TransformTree) : Renderer :=
  mkRenderer t (coordinateFrameList r) (currentTime r) (fixedFrameId r)
    (renderFrameId r) (emitted r) (debugLog r).

Definition setCoordinateFrameList (r : Renderer) (l : list SelectEntry) : Renderer :=
  mkRenderer (transformTree r) l (currentTime r) (fixedFrameId r)
    (renderFrameId r) (emitted r) (debugLog r).

Definition setFixedFrameId (r : Renderer) (f : option string) : Renderer :=
  mkRenderer (transformTree r) (coordinateFrameList r) (currentTime r) f
    (renderFrameId r) (emitted r) (debugLog r).

Definition setRenderFrameId (r : Renderer) (f : option string) : Renderer :=
  mkRenderer (transformTree r) (coordinateFrameList r) (currentTime r)
    (fixedFrameId r) f (emitted r) (debugLog r).

Definition emit (r : Renderer) (e : RendererEvent) : Renderer :=
  mkRenderer (transformTree r) (coordinateFrameList r) (currentTime r)
    (fixedFrameId r) (renderFrameId r) (emitted r ++ [e]) (debugLog r).

Definition debug (r : Renderer) (l : LogLine) : Renderer :=
  mkRenderer (transformTree r) (coordinateFrameList r) (currentTime r)
    (fixedFrameId r) (renderFrameId r) (emitted r) (debugLog r ++ [l]).

(** [const TRANSFORM_STORAGE_TIME_NS = 60n * BigInt(1e9)]; evaluating the
    constant would raise if [BigInt] did. *)
Definition TRANSFORM_STORAGE_TIME_NS : option Z := Z.mul 60 <$> BigInt 1e9.

Definition DEFAULT_FRAME_IDS : list string := ["base_link"; "odom"; "map"; "earth"].

(** The field initialisers of the class: a tree built with
    [new TransformTree(TRANSFORM_STORAGE_TIME_NS)], an empty frame list, no
    current time and no frames chosen. *)
Definition new : option Renderer :=
  storageTime ← TRANSFORM_STORAGE_TIME_NS;
  Some {| transformTree := emptyTree storageTime;
          coordinateFrameList := [];
          currentTime := None;
          fixedFrameId := None;
          renderFrameId := None;
          emitted := [];
          debugLog := [] |}.

(** *** defaultFrameId *)

(** A [Map<string, number>], iterated in insertion order. *)
Definition Map_get (m : list (string * Z)) (key : string) : option Z :=
  snd <$> List.find (fun entry => String.eqb entry.1 key) m.

Fixpoint Map_set (m : list (string * Z)) (key : string) (v : Z) : list (string * Z) :=
  match m with
  | [] => [(key, v)]
  | (key', v') :: rest =>
      if String.eqb key' key then (key', v) :: rest
      else (key', v') :: Map_set rest key v
  end.

(** [Array.prototype.sort(compareFn)]: a stable sort; here by insertion. *)
Fixpoint sortInsert {A : Type} (compareFn : A -> A -> Z) (a : A) (sorted : list A)
    : list A :=
  match sorted with
  | [] => [a]
  | b :: rest =>
      if compareFn a b <=? 0 then a :: b :: rest
      else b :: sortInsert compareFn a rest
  end.

Definition Array_sort {A : Type} (compareFn : A -> A -> Z) (l : list A) : list A :=
  foldr (sortInsert compareFn) [] l.

(** The first loop of [defaultFrameId]: the first identifier of [ids] that
    names a frame of the tree. *)
Fixpoint preferredFrame (t : TransformTree) (ids : list string) : option string :=
  match ids with
  | [] => None
  | frameId :: rest =>
      match frame t frameId with
      | Some f => Some (id f)
      | None => preferredFrame t rest
      end
  end.

(** The second loop: [rootsToCounts]. *)
Definition countRoot (t : TransformTree) (rootsToCounts : list (string * Z)) (f : Frame)
    : list (string * Z) :=
  let rootId := id (root t f) in
  Map_set rootsToCounts rootId ((Map_get rootsToCounts rootId ?? 0) + 1).

Definition rootsToCounts (t : TransformTree) : list (string * Z) :=
  foldl (countRoot t) [] (frames t).

Definition defaultFrameId (t : TransformTree) : option string :=
  match preferredFrame t DEFAULT_FRAME_IDS with
  | Some frameId => Some frameId
  | None =>
      let rootsArray := rootsToCounts t in
      fst <$> head (Array_sort (fun a b => b.2 - a.2) rootsArray)
  end.

(** *** addCoordinateFrame and addTransformMessage *)

Definition addCoordinateFrame `{Externals} (r : Renderer) (frameId : string) : Renderer :=
  if negb (hasFrame (transformTree r) frameId) then
    let r := setTransformTree r (getOrCreateFrame (transformTree r) frameId) in
    let r := setCoordinateFrameList r (frameList (transformTree r)) in
    let r := debug r (AddedCoordinateFrame frameId) in
    emit r transformTreeUpdated
  else r.

(** [new Transform([t.x, t.y, t.z], [q.x, q.y, q.z, q.w])]. *)
Definition transformOf (tf : Ros.Transform) : Transform :=
  let t := Ros.translation tf in
  let q := Ros.rotation tf in
  {| position := (Ros.x t, Ros.y t, Ros.z t);
     rotation := (Ros.qx q, Ros.qy q, Ros.qz q, Ros.qw q) |}.

Definition addTransformMessage `{Externals} (r : Renderer) (tf : Ros.TransformStamped)
    : Renderer :=
  let parentFrameId := Ros.frame_id (Ros.header tf) in
  let childFrameId := Ros.child_frame_id tf in
  let addParent := negb (hasFrame (transformTree r) parentFrameId) in
  let addChild := negb (hasFrame (transformTree r) childFrameId) in
  let stamp := Ros.toNanoSec (Ros.stamp (Ros.header tf)) in
  let transform := transformOf (Ros.transform tf) in
  let '(tree, updated) :=
    addTransform (transformTree r) childFrameId parentFrameId stamp transform in
  let r := setTransformTree r tree in
  if addParent || addChild then
    let r := setCoordinateFrameList r (frameList (transformTree r)) in
    let r := debug r (AddedTransform parentFrameId childFrameId) in
    emit r transformTreeUpdated
  else if updated then
    let r := setCoordinateFrameList r (frameList (transformTree r)) in
    let r := debug r (UpdatedTransform parentFrameId childFrameId) in
    emit r transformTreeUpdated
  else r.

(** *** _updateFrames *)

(** The part of [_updateFrames] after the render frame is known. *)
Definition updateFixedFrame (r : Renderer) (renderFrame : string) : Renderer :=
  match frame (transformTree r) renderFrame with
  | None => setFixedFrameId r None
  | Some f =>
      let rootFrameId := id (root (transformTree r) f) in
      if bool_decide (fixedFrameId r = Some rootFrameId) then r
      else
        let r := match fixedFrameId r with
                 | None => debug r (SettingFixedFrame rootFrameId)
                 | Some old => debug r (ChangingFixedFrame old rootFrameId)
                 end in
        setFixedFrameId r (Some rootFrameId)
  end.

Definition _updateFrames (r : Renderer) : Renderer :=
  match renderFrameId r with
  | None =>
      let r := setRenderFrameId r (defaultFrameId (transformTree r)) in
      match renderFrameId r with
      | None => setFixedFrameId r None
      | Some renderFrame =>
          updateFixedFrame (debug r (SettingRenderFrame renderFrame)) renderFrame
      end
  | Some renderFrame => updateFixedFrame r renderFrame
  end.

End Renderer.

(** ** SceneExtension.ts *)

Module SceneExtension.
Import Transforms LayerErrors.

(** [BaseSettings] of settings.ts: [frameLocked] is optional. *)
Record BaseSettings := mkBaseSettings {
  visible : bool;
  frameLocked : option bool }.

(** A renderable: its [userData] (settings path, settings, message time
    and frame) and, of the THREE.Object3D it extends, the visible flag and
    the pose (position and quaternion). *)
Record Renderable := mkRenderable {
  settingsPath : Path;
  settings : BaseSettings;
  messageTime : Z;
  frameId : string;
  objectVisible : bool;
  objectPose : Transform }.

Definition setObjectVisible (r : Renderable) (v : bool) : Renderable :=
  mkRenderable (settingsPath r) (settings r) (messageTime r) (frameId r) v (objectPose r).

Definition setObjectPose (r : Renderable) (pose : Transform) : Renderable :=
  mkRenderable (settingsPath r) (settings r) (messageTime r) (frameId r)
    (objectVisible r) pose.

(** Modelled from the spec: [updatePose] (./updatePose) is not among the
    sources.  Steps 1 to 3 of the pose resolution pipeline (section 4.4):
    resolve the render frame to the fixed frame at the current time, the
    renderable's frame to the fixed frame at the source time, and compose
    the inverse of the first with the second. *)
Definition resolveRenderPose `{Externals} (tree : TransformTree)
    (renderFrameId fixedFrameId srcFrameId : string) (dstTime srcTime : Z)
    : option Transform :=
  anchor ← resolvePose tree renderFrameId fixedFrameId dstTime;
  source ← resolvePose tree srcFrameId fixedFrameId srcTime;
  Some (compose (invert anchor) source).

(** Modelled from the spec: steps 4 and 5 of the pipeline.  On success the
    resulting pose is applied to the renderable; on failure its last pose
    is left untouched.  The result says whether a pose was applied. *)
Definition updatePose `{Externals} (renderable : Renderable) (tree : TransformTree)
    (renderFrameId fixedFrameId srcFrameId : string) (dstTime srcTime : Z)
    : Renderable * bool :=
  match resolveRenderPose tree renderFrameId fixedFrameId srcFrameId dstTime srcTime with
  | Some pose => (setObjectPose renderable pose, true)
  | None => (renderable, false)
  end.

(** The arguments of one call of [updatePose]. *)
Record UpdatePoseCall := mkUpdatePoseCall {
  call_renderable : Renderable;
  call_renderFrameId : string;
  call_fixedFrameId : string;
  call_srcFrameId : string;
  call_dstTime : Z;
  call_srcTime : Z }.

(** What [startFrame] changes besides the renderables: the renderer's
    diagnostics ([renderer.settings.errors]), and the calls of [updatePose]
    it has made so far. *)
Record FrameState := mkFrameState {
  errors : LayerErrors;
  calls : list UpdatePoseCall }.

(** A call of [updatePose]: its result is that of [updatePose] on the
    arguments, and the call is recorded with the same arguments.  Nothing
    else writes to [calls]. *)
Definition callUpdatePose `{Externals} (st : FrameState) (renderable : Renderable)
    (tree : TransformTree) (renderFrameId fixedFrameId srcFrameId : string)
    (dstTime srcTime : Z) : Renderable * bool * FrameState :=
  (updatePose renderable tree renderFrameId fixedFrameId srcFrameId dstTime srcTime,
   {| errors := errors st;
      calls := calls st ++
               [mkUpdatePoseCall renderable renderFrameId fixedFrameId srcFrameId
                  dstTime srcTime] |}).

(** The body of the loop of [startFrame], for one renderable. *)
Definition startFrameBody `{Externals} (tree : TransformTree) (currentTime : Z)
    (renderFrameId fixedFrameId : string) (st : FrameState) (renderable : Renderable)
    : Renderable * FrameState :=
  let path := settingsPath renderable in
  let renderable := setObjectVisible renderable (visible (settings renderable)) in
  if negb (objectVisible renderable) then
    (renderable, {| errors := clearPath (errors st) path; calls := calls st |})
  else
    let frameLocked := frameLocked (settings renderable) ?? true in
    let srcTime := if frameLocked then currentTime else messageTime renderable in
    let frameId := frameId renderable in
    let '(renderable', updated, st) :=
      callUpdatePose st renderable tree renderFrameId fixedFrameId frameId
        currentTime srcTime in
    if negb updated then
      let message := missingTransformMessage renderFrameId fixedFrameId frameId in
      (renderable',
       {| errors := add (errors st) path MISSING_TRANSFORM message;
          calls := calls st |})
    else
      (renderable',
       {| errors := remove (errors st) path MISSING_TRANSFORM;
          calls := calls st |}).

(** [startFrame]: the loop over [this.renderables.values()], a [Map] in
    insertion order. *)
Fixpoint startFrame `{Externals} (tree : TransformTree) (currentTime : Z)
    (renderFrameId fixedFrameId : string) (renderables : list (string * Renderable))
    (st : FrameState) : list (string * Renderable) * FrameState :=
  match renderables with
  | [] => ([], st)
  | (key, renderable) :: rest =>
      let '(renderable', st') :=
        startFrameBody tree currentTime renderFrameId fixedFrameId st renderable in
      let '(rest', st'') :=
        startFrame tree currentTime renderFrameId fixedFrameId rest st' in
      ((key, renderable') :: rest', st'')
  end.

End SceneExtension.

(** ** Measures and predicates of the properties *)

Module Measures.
Import Transforms.

(** The number of known frames whose root is the frame named [rootId]. *)
Definition rootCount (t : TransformTree) (rootId : string) : Z :=
  Z.of_nat (length (filter (fun f => id (root t f) = rootId) (frames t))).

(** The distinct strings of a list, in order of first occurrence, after
    those already seen. *)
Definition firstSeenFrom (seen l : list string) : list string :=
  foldl (fun seen x => if bool_decide (x ∈ seen) then seen else seen ++ [x]) seen l.

(** The histories of the frames of a tree, by frame identifier. *)
Definition histories (t : TransformTree) : list (string * list Edge) :=
  (fun f => (id f, edges f)) <$> frames t.

(** The malformed records of section 7 of the specification: one of the
    seven numbers is not finite, or the rotation cannot be normalised
    because its norm is not a positive number. *)
Definition finiteTransform (tf : Ros.Transform) : bool :=
  let t := Ros.translation tf in
  let q := Ros.rotation tf in
  isFinite (Ros.x t) && isFinite (Ros.y t) && isFinite (Ros.z t) &&
  isFinite (Ros.qx q) && isFinite (Ros.qy q) && isFinite (Ros.qz q) &&
  isFinite (Ros.qw q).

Definition normalizable (q : Ros.Quaternion) : bool :=
  (0 <? NormalizeMessages.squaredNorm q)%float.

Definition malformed (tf : Ros.Transform) : bool :=
  negb (finiteTransform tf) || negb (normalizable (Ros.rotation tf)).

(** The source time [startFrame] computes for a renderable. *)
Definition sourceTime (currentTime : Z) (r : SceneExtension.Renderable) : Z :=
  match SceneExtension.frameLocked (SceneExtension.settings r) with
  | Some false => SceneExtension.messageTime r
  | Some true | None => currentTime
  end.

(** The states a renderer goes through: it is constructed, messages and
    header frames are ingested, frames are updated on each tick, and the
    public fields [renderFrameId] and [currentTime] are assigned by the
    panel. *)
Inductive reachable `{Externals} : Renderer.Renderer -> Prop :=
  | reachable_new r :
      Renderer.new = Some r -> reachable r
  | reachable_addCoordinateFrame r frameId :
      reachable r -> reachable (Renderer.addCoordinateFrame r frameId)
  | reachable_addTransformMessage r tf :
      reachable r -> reachable (Renderer.addTransformMessage r tf)
  | reachable_updateFrames r :
      reachable r -> reachable (Renderer._updateFrames r)
  | reachable_setRenderFrameId r f :
      reachable r -> reachable (Renderer.setRenderFrameId r f)
  | reachable_setCurrentTime r time :
      reachable r ->
      reachable (Renderer.mkRenderer (Renderer.transformTree r)
                   (Renderer.coordinateFrameList r) (Some time)
                   (Renderer.fixedFrameId r) (Renderer.renderFrameId r)
                   (Renderer.emitted r) (Renderer.debugLog r)).

End Measures.

(** ** Concrete inputs *)

Module Scenario.
Import Transforms.

Definition identity : Transform :=
  {| position := (0, 0, 0)%float; rotation := (0, 0, 0, 1)%float |}.

(** A stand-in for the abstract collaborators, so that the model runs on
    concrete inputs: a pose resolves exactly when both frames are known,
    and clearing a path drops the diagnostics recorded at that path. *)
Definition externals : Externals :=
  {| clearPath := fun errors path => filter (fun entry => entry.1.1 ≠ path) errors;
     frameList := fun t => (fun f => mkSelectEntry (id f) (id f)) <$> frames t;
     resolvePose := fun t from to _ =>
       if hasFrame t from && hasFrame t to then Some identity else None;
     compose := fun _ b => b;
     invert := fun a => a;
     MISSING_TRANSFORM := "MISSING_TRANSFORM";
     missingTransformMessage := fun renderFrameId fixedFrameId frameId =>
       String.concat " " [renderFrameId; fixedFrameId; frameId] |}.

(** A second stand-in, in which the time of the query decides: a pose
    between two known frames resolves at time 100 and at no other time. *)
Definition timedExternals : Externals :=
  {| clearPath := fun errors path => filter (fun entry => entry.1.1 ≠ path) errors;
     frameList := fun t => (fun f => mkSelectEntry (id f) (id f)) <$> frames t;
     resolvePose := fun t from to time =>
       if hasFrame t from && hasFrame t to && (time =? 100) then Some identity
       else None;
     compose := fun _ b => b;
     invert := fun a => a;
     MISSING_TRANSFORM := "MISSING_TRANSFORM";
     missingTransformMessage := fun renderFrameId fixedFrameId frameId =>
       String.concat " " [renderFrameId; fixedFrameId; frameId] |}.

(** map <- odom <- base_link, each edge stamped 0. *)
Definition robotTree : TransformTree :=
  let t := emptyTree 60000000000 in
  let t := (addTransform t "odom" "map" 0 identity).1 in
  (addTransform t "base_link" "odom" 0 identity).1.

(** No canonical frame name: world <- lidar, world <- camera, and a lone
    frame. *)
Definition sensorTree : TransformTree :=
  let t := getOrCreateFrame (emptyTree 60000000000) "lone" in
  let t := (addTransform t "lidar" "world" 0 identity).1 in
  (addTransform t "camera" "world" 0 identity).1.

(** A renderer whose render frame names a frame that is not in the tree. *)
Definition staleRenderer : Renderer.Renderer :=
  {| Renderer.transformTree := robotTree;
     Renderer.coordinateFrameList := [];
     Renderer.currentTime := Some 0;
     Renderer.fixedFrameId := Some "map";
     Renderer.renderFrameId := Some "gone";
     Renderer.emitted := [];
     Renderer.debugLog := [] |}.

(** A renderer that has not chosen a render frame yet. *)
Definition freshRenderer : Renderer.Renderer :=
  {| Renderer.transformTree := robotTree;
     Renderer.coordinateFrameList := [];
     Renderer.currentTime := Some 0;
     Renderer.fixedFrameId := None;
     Renderer.renderFrameId := None;
     Renderer.emitted := [];
     Renderer.debugLog := [] |}.

(** A transform message odom -> base_link stamped 1 s whose rotation object
    is present but empty, and one whose translation is not finite. *)
Definition emptyRotationMessage : Ros.RawTransformStamped :=
  {| Ros.header_opt := Some {| Ros.frame_id_opt := Some "odom";
                               Ros.stamp_opt := Some (Ros.mkPartialTime (Some 1) None);
                               Ros.seq_opt := None |};
     Ros.child_frame_id_opt := Some "base_link";
     Ros.transform_opt :=
       Some {| Ros.translation_opt := None;
               Ros.rotation_opt := Some NormalizeMessages.emptyQuaternion |} |}.

Definition infiniteTranslationMessage : Ros.RawTransformStamped :=
  {| Ros.header_opt := Some {| Ros.frame_id_opt := Some "odom";
                               Ros.stamp_opt := Some (Ros.mkPartialTime (Some 2) None);
                               Ros.seq_opt := None |};
     Ros.child_frame_id_opt := Some "base_link";
     Ros.transform_opt :=
       Some {| Ros.translation_opt :=
                 Some (Ros.mkPartialVector3 (Some infinity) None None);
               Ros.rotation_opt := None |} |}.

(** Three renderables: frame-locked left unspecified, not frame-locked, and
    hidden. *)
Definition unspecified : SceneExtension.Renderable :=
  {| SceneExtension.settingsPath := ["topics"; "/a"];
     SceneExtension.settings := SceneExtension.mkBaseSettings true None;
     SceneExtension.messageTime := 5;
     SceneExtension.frameId := "base_link";
     SceneExtension.objectVisible := false;
     SceneExtension.objectPose := identity |}.

Definition unlocked : SceneExtension.Renderable :=
  {| SceneExtension.settingsPath := ["topics"; "/b"];
     SceneExtension.settings := SceneExtension.mkBaseSettings true (Some false);
     SceneExtension.messageTime := 7;
     SceneExtension.frameId := "nowhere";
     SceneExtension.objectVisible := true;
     SceneExtension.objectPose := identity |}.

Definition locked : SceneExtension.Renderable :=
  {| SceneExtension.settingsPath := ["topics"; "/c"];
     SceneExtension.settings := SceneExtension.mkBaseSettings true (Some true);
     SceneExtension.messageTime := 8;
     SceneExtension.frameId := "odom";
     SceneExtension.objectVisible := true;
     SceneExtension.objectPose := identity |}.

Definition hidden : SceneExtension.Renderable :=
  {| SceneExtension.settingsPath := ["topics"; "/d"];
     SceneExtension.settings := SceneExtension.mkBaseSettings false (Some false);
     SceneExtension.messageTime := 9;
     SceneExtension.frameId := "odom";
     SceneExtension.objectVisible := true;
     SceneExtension.objectPose := identity |}.

Definition renderables : list (string * SceneExtension.Renderable) :=
  [("a", unspecified); ("b", unlocked); ("c", locked); ("d", hidden)].

(** A visible renderable in a known frame that is not frame-locked and
    carries the message time 7, and one in the same frame whose settings
    leave frame-locked unspecified. *)
Definition stamped : SceneExtension.Renderable :=
  {| SceneExtension.settingsPath := ["topics"; "/e"];
     SceneExtension.settings := SceneExtension.mkBaseSettings true (Some false);
     SceneExtension.messageTime := 7;
     SceneExtension.frameId := "odom";
     SceneExtension.objectVisible := false;
     SceneExtension.objectPose := identity |}.

Definition undecided : SceneExtension.Renderable :=
  {| SceneExtension.settingsPath := ["topics"; "/f"];
     SceneExtension.settings := SceneExtension.mkBaseSettings true None;
     SceneExtension.messageTime := 7;
     SceneExtension.frameId := "odom";
     SceneExtension.objectVisible := false;
     SceneExtension.objectPose := identity |}.

Definition noCalls : SceneExtension.FrameState :=
  {| SceneExtension.errors := LayerErrors.empty; SceneExtension.calls := [] |}.

End Scenario.

(** ** The rest of normalizeMessages.ts *)

Module NormalizeRest.
Import Ros NormalizeMessages.

Record ColorRGBA := mkColorRGBA { r : number; g : number; b : number; a : number }.

Record PartialColorRGBA := mkPartialColorRGBA {
  r_opt : option number; g_opt : option number;
  b_opt : option number; a_opt : option number }.

Record Pose := mkPose { position : Vector3; orientation : Quaternion }.

Record RawPose := mkRawPose {
  position_opt : option PartialVector3;
  orientation_opt : option PartialQuaternion }.

Definition normalizeVector3s (vectors : option (list PartialVector3)) : list Vector3 :=
  match vectors with
  | None => []
  | Some vectors => normalizeVector3 ∘ Some <$> vectors
  end.

Definition normalizeColorRGBA (color : option PartialColorRGBA) : ColorRGBA :=
  match color with
  | None => {| r := 0; g := 0; b := 0; a := 1 |}
  | Some color =>
      {| r := r_opt color ?? 0%float;
         g := g_opt color ?? 0%float;
         b := b_opt color ?? 0%float;
         a := a_opt color ?? 1%float |}
  end.

Definition normalizeColorRGBAs (colors : option (list PartialColorRGBA)) : list ColorRGBA :=
  match colors with
  | None => []
  | Some colors => normalizeColorRGBA ∘ Some <$> colors
  end.

Definition normalizePose (pose : option RawPose) : Pose :=
  {| position := normalizeVector3 (pose ≫= position_opt);
     orientation := normalizeQuaternion (pose ≫= orientation_opt) |}.

(** An element of a JavaScript array that is meant to hold numbers: a
    number, or a value for which [typeof] is not "number". *)
Inductive Element :=
  | Num (v : number)
  | NotNum.

Definition identityMatrix6 : list Element :=
  Num <$> [1; 0; 0; 0; 0; 0;
           0; 1; 0; 0; 0; 0;
           0; 0; 1; 0; 0; 0;
           0; 0; 0; 1; 0; 0;
           0; 0; 0; 0; 1; 0;
           0; 0; 0; 0; 0; 1]%float.

Definition isNum (e : option Element) : bool :=
  match e with
  | Some (Num _) => true
  | _ => false
  end.

Definition normalizeMatrix6 (mat : option (list Element)) : list Element :=
  match mat with
  | None => identityMatrix6
  | Some mat =>
      if negb (length mat =? 36)%nat || negb (isNum (mat !! 0%nat)) then identityMatrix6
      else mat
  end.

(** *** Byte arrays *)

(** The integer part of a finite number, rounded towards zero; [None] for
    NaN and the infinities. *)
Definition truncate (v : number) : option Z :=
  match Prim2SF v with
  | S754_zero _ => Some 0
  | S754_finite s m e =>
      let magnitude := if 0 <=? e then Z.pos m * 2 ^ e else Z.pos m / 2 ^ (- e) in
      Some (if s then - magnitude else magnitude)
  | S754_infinity _ | S754_nan => None
  end.

(** [ToUint8] and [ToInt8] of ECMAScript, the conversions applied to each
    element when a typed array is built from an array of numbers. *)
Definition ToUint8 (v : number) : Z :=
  match truncate v with
  | None => 0
  | Some int => int mod 256
  end.

Definition ToInt8 (v : number) : Z :=
  let int8bit := ToUint8 v in
  if 128 <=? int8bit then int8bit - 256 else int8bit.

(** The values the two functions receive as [unknown]: nothing, a
    [Uint8Array] (elements 0..255), an [Int8Array] (elements -128..127), a
    plain array of numbers, an [ArrayBuffer] (its bytes, 0..255), or any
    other value. *)
Inductive Unknown :=
  | undefined
  | aUint8Array (elements : list Z)
  | anInt8Array (elements : list Z)
  | anArray (elements : list number)
  | anArrayBuffer (bytes : list Z)
  | other.

(** The byte [b] of a buffer read as a signed 8-bit integer. *)
Definition signedByte (b : Z) : Z := if 128 <=? b then b - 256 else b.

(** The result is a [Uint8Array], given by its elements. *)
Definition normalizeByteArray (byteArray : Unknown) : list Z :=
  match byteArray with
  | undefined => []
  | aUint8Array elements => elements
  | anArray elements => ToUint8 <$> elements
  | anArrayBuffer bytes => bytes
  | anInt8Array _ | other => []
  end.

(** The result is an [Int8Array], given by its elements. *)
Definition normalizeInt8Array (int8Array : Unknown) : list Z :=
  match int8Array with
  | undefined => []
  | anInt8Array elements => elements
  | anArray elements => ToInt8 <$> elements
  | anArrayBuffer bytes => signedByte <$> bytes
  | aUint8Array _ | other => []
  end.

(** The invariants of the typed arrays among the inputs. *)
Definition wellFormed (u : Unknown) : Prop :=
  match u with
  | aUint8Array elements | anArrayBuffer elements => Forall (fun x => 0 <= x < 256) elements
  | anInt8Array elements => Forall (fun x => -128 <= x < 128) elements
  | undefined | anArray _ | other => True
  end.

End NormalizeRest.

(** ** Fully populated messages seen as partial ones *)

(** Every [T] is a [Partial<T>] and a [DeepPartial<T>]: the same object,
    with every field present. *)
Module Populated.
Import Ros NormalizeRest.

Definition time (t : Time) : PartialTime :=
  {| sec_opt := Some (sec t); nsec_opt := Some (nsec t) |}.

Definition vector3 (v : Vector3) : PartialVector3 :=
  {| x_opt := Some (x v); y_opt := Some (y v); z_opt := Some (z v) |}.

Definition quaternion (q : Quaternion) : PartialQuaternion :=
  {| qx_opt := Some (qx q); qy_opt := Some (qy q);
     qz_opt := Some (qz q); qw_opt := Some (qw q) |}.

Definition color (c : ColorRGBA) : PartialColorRGBA :=
  {| r_opt := Some (r c); g_opt := Some (g c); b_opt := Some (b c); a_opt := Some (a c) |}.

Definition pose (p : Pose) : RawPose :=
  {| position_opt := Some (vector3 (position p));
     orientation_opt := Some (quaternion (orientation p)) |}.

Definition header (h : Header) : RawHeader :=
  {| frame_id_opt := Some (frame_id h);
     stamp_opt := Some (time (stamp h));
     seq_opt := seq h |}.

Definition transform (t : Transform) : RawTransform :=
  {| translation_opt := Some (vector3 (translation t));
     rotation_opt := Some (quaternion (rotation t)) |}.

Definition transformStamped (t : TransformStamped) : RawTransformStamped :=
  {| header_opt := Some (header (Ros.header t));
     child_frame_id_opt := Some (child_frame_id t);
     transform_opt := Some (transform (Ros.transform t)) |}.

Definition tfMessage (m : TFMessage) : RawTFMessage :=
  {| transforms_opt := Some (transformStamped <$> transforms m) |}.

End Populated.

(** ** renderables/Markers.ts: normalizeMarker *)

Module Markers.
Import Ros NormalizeMessages NormalizeRest.

Record Marker := mkMarker {
  header : Header;
  ns : string;
  id : number;
  type : number;
  action : number;
  pose : Pose;
  scale : Vector3;
  color : ColorRGBA;
  lifetime : Time;
  frame_locked : bool;
  points : list Vector3;
  colors : list ColorRGBA;
  text : string;
  mesh_resource : string;
  mesh_use_embedded_materials : bool }.

Record RawMarker := mkRawMarker {
  header_opt : option RawHeader;
  ns_opt : option string;
  id_opt : option number;
  type_opt : option number;
  action_opt : option number;
  pose_opt : option RawPose;
  scale_opt : option PartialVector3;
  color_opt : option PartialColorRGBA;
  lifetime_opt : option PartialTime;
  frame_locked_opt : option bool;
  points_opt : option (list PartialVector3);
  colors_opt : option (list PartialColorRGBA);
  text_opt : option string;
  mesh_resource_opt : option string;
  mesh_use_embedded_materials_opt : option bool }.

Definition normalizeMarker (marker : RawMarker) : Marker :=
  {| header := normalizeHeader (header_opt marker);
     ns := ns_opt marker ?? EmptyString;
     id := id_opt marker ?? 0%float;
     type := type_opt marker ?? 0%float;
     action := action_opt marker ?? 0%float;
     pose := normalizePose (pose_opt marker);
     scale := normalizeVector3 (scale_opt marker);
     color := normalizeColorRGBA (color_opt marker);
     lifetime := normalizeTime (lifetime_opt marker);
     frame_locked := frame_locked_opt marker ?? false;
     points := normalizeVector3s (points_opt marker);
     colors := normalizeColorRGBAs (colors_opt marker);
     text := text_opt marker ?? EmptyString;
     mesh_resource := mesh_resource_opt marker ?? EmptyString;
     mesh_use_embedded_materials := mesh_use_embedded_materials_opt marker ?? false |}.

(** A fully populated marker seen as a partial one. *)
Definition populated (m : Marker) : RawMarker :=
  {| header_opt := Some (Populated.header (header m));
     ns_opt := Some (ns m);
     id_opt := Some (id m);
     type_opt := Some (type m);
     action_opt := Some (action m);
     pose_opt := Some (Populated.pose (pose m));
     scale_opt := Some (Populated.vector3 (scale m));
     color_opt := Some (Populated.color (color m));
     lifetime_opt := Some (Populated.time (lifetime m));
     frame_locked_opt := Some (frame_locked m);
     points_opt := Some (Populated.vector3 <$> points m);
     colors_opt := Some (Populated.color <$> colors m);
     text_opt := Some (text m);
     mesh_resource_opt := Some (mesh_resource m);
     mesh_use_embedded_materials_opt := Some (mesh_use_embedded_materials m) |}.

End Markers.

(** ** Renderer.ts: message dispatch *)

Module Dispatch.
Import Transforms Renderer.

(** The message object as [addMessageEvent] looks at it through its casts:
    the properties [header], [child_frame_id], [transform] and
    [transforms], each possibly missing. *)
Record Message := mkMessage {
  header : option Ros.RawHeader;
  child_frame_id : option string;
  transform : option Ros.RawTransform;
  transforms : option (list Ros.RawTransformStamped) }.

(** [message as DeepPartial<TransformStamped>]. *)
Definition asTransformStamped (m : Message) : Ros.RawTransformStamped :=
  {| Ros.header_opt := header m;
     Ros.child_frame_id_opt := child_frame_id m;
     Ros.transform_opt := transform m |}.

(** [message as DeepPartial<TFMessage>]. *)
Definition asTFMessage (m : Message) : Ros.RawTFMessage :=
  {| Ros.transforms_opt := transforms m |}.

(** A message that has the properties of a transform and no others. *)
Definition asMessage (tf : Ros.RawTransformStamped) : Message :=
  {| header := Ros.header_opt tf;
     child_frame_id := Ros.child_frame_id_opt tf;
     transform := Ros.transform_opt tf;
     transforms := None |}.

(** A [MessageEvent]: the topic and the message. *)
Record MessageEvent := mkMessageEvent {
  topic : string;
  message : Message }.

Section Handlers.

(** Message handlers are functions compared by reference: a type with
    decidable equality. *)
Context {Handler : Type} `{EqDecision Handler}.

(** The body of the loop of [addDatatypeSubscriptions], for one datatype. *)
Definition subscribe (handler : Handler) (datatypeHandlers : gmap string (list Handler))
    (datatype : string) : gmap string (list Handler) :=
  let '(datatypeHandlers, handlers) :=
    match datatypeHandlers !! datatype with
    | Some handlers => (datatypeHandlers, handlers)
    | None => (<[datatype := []]> datatypeHandlers, [])
    end in
  if negb (bool_decide (handler ∈ handlers))
  then <[datatype := handlers ++ [handler]]> datatypeHandlers
  else datatypeHandlers.

Definition addDatatypeSubscriptions (datatypeHandlers : gmap string (list Handler))
    (datatypes : list string) (handler : Handler) : gmap string (list Handler) :=
  foldl (subscribe handler) datatypeHandlers datatypes.

(** [addMessageEvent], up to its last loop: the renderer after the header
    frame and the transforms are ingested, and the handlers that the last
    loop then calls with the message event, in order.  The sets
    [TF_DATATYPES] and [TRANSFORM_STAMPED_DATATYPES] of [./ros] are not
    among the sources and are parameters. *)
Definition addMessageEvent `{Externals}
    (TF_DATATYPES TRANSFORM_STAMPED_DATATYPES : gset string)
    (datatypeHandlers : gmap string (list Handler))
    (r : Renderer) (message : Message) (datatype : string)
    : Renderer * list Handler :=
  let r :=
    match header message with
    | Some header => addCoordinateFrame r (Ros.frame_id_opt header ?? EmptyString)
    | None => r
    end in
  let r :=
    if bool_decide (datatype ∈ TF_DATATYPES) then
      let tfMessage := NormalizeMessages.normalizeTFMessage (Some (asTFMessage message)) in
      foldl addTransformMessage r (Ros.transforms tfMessage)
    else if bool_decide (datatype ∈ TRANSFORM_STAMPED_DATATYPES) then
      let tf :=
        NormalizeMessages.normalizeTransformStamped (Some (asTransformStamped message)) in
      addTransformMessage r tf
    else r in
  (r, (datatypeHandlers !! datatype) ?? []).

(** *** ThreeDeeRender.tsx: the list of topics to subscribe to *)

Record Topic := mkTopic { name : string; datatype : string }.

(** The body of the loop over the topics: [subscriptions] is a [Set] of
    topic names, [configTopics] gives for a topic name the [visible]
    setting of its configuration when that is a boolean. *)
Definition subscribeTopic (TF_DATATYPES TRANSFORM_STAMPED_DATATYPES : gset string)
    (datatypeHandlers : gmap string (list Handler))
    (configTopics : gmap string (option bool))
    (subscriptions : gset string) (topic : Topic) : gset string :=
  if bool_decide (datatype topic ∈ TF_DATATYPES)
     || bool_decide (datatype topic ∈ TRANSFORM_STAMPED_DATATYPES)
  then {[ name topic ]} ∪ subscriptions
  else if bool_decide (is_Some (datatypeHandlers !! datatype topic)) then
    let visible := (configTopics !! name topic) ?? None in
    if negb (bool_decide (visible = Some false))
    then {[ name topic ]} ∪ subscriptions
    else subscriptions
  else subscriptions.

(** The names collected by the effect that builds [topicsToSubscribe];
    nothing when the topics are not known yet. *)
Definition subscriptions (TF_DATATYPES TRANSFORM_STAMPED_DATATYPES : gset string)
    (datatypeHandlers : gmap string (list Handler))
    (configTopics : gmap string (option bool))
    (topics : option (list Topic)) : option (gset string) :=
  match topics with
  | None => None
  | Some topics =>
      Some (foldl (subscribeTopic TF_DATATYPES TRANSFORM_STAMPED_DATATYPES
                     datatypeHandlers configTopics) ∅ topics)
  end.

End Handlers.

End Dispatch.

(** ** settings.ts: the settings tree of the custom layers *)

Module SettingsTree.

Inductive LayerType :=
  | Transform | Marker | OccupancyGrid | PointCloud | Polygon
  | Pose | CameraInfo | Image | Grid.

Record CustomLayerSettings := mkCustomLayerSettings {
  visible : bool;
  frameLocked : option bool;
  layerLabel : string;
  type : LayerType }.

(** A node action: an action with an id and a label, or a divider. *)
Inductive SettingsTreeNodeAction :=
  | action (actionId actionLabel : string) (icon : option string)
  | divider.

(** A field of a node: a select box with its options, or another input. *)
Inductive SettingsTreeField :=
  | select (options : list SelectEntry)
  | input (kind : string).

(** The properties of a settings tree node that [buildLayerNode] and
    [buildSettingsTree] read or write. *)
Record SettingsTreeNode := mkSettingsTreeNode {
  nodeLabel : option string;
  nodeVisible : option bool;
  defaultExpansionState : option string;
  fields : option (gmap string SettingsTreeField);
  actions : option (list SettingsTreeNodeAction);
  error : option string }.

(** The root node "layers" with its children. *)
Record LayersNode := mkLayersNode {
  layersError : option string;
  layersLabel : string;
  children : gmap string SettingsTreeNode;
  layersExpansionState : string;
  layersActions : list SettingsTreeNodeAction }.

Definition SettingsNodeProvider := CustomLayerSettings -> SettingsTreeNode.

Definition isDelete (a : SettingsTreeNodeAction) : bool :=
  match a with
  | action actionId _ _ => String.eqb actionId "delete"
  | divider => false
  end.

Definition extendOptions (coordinateFrames : list SelectEntry) (f : SettingsTreeField)
    : SettingsTreeField :=
  match f with
  | select options => select (options ++ coordinateFrames)
  | input kind => input kind
  end.

(** [buildLayerNode].  The source writes the defaults into the object the
    provider returns and returns that object; here the node is a value, as
    for a provider that returns a new object on each call.  Which layers
    get a child does not depend on this. *)
Definition buildLayerNode (layer : CustomLayerSettings)
    (settingsNodeProvider : SettingsNodeProvider) (coordinateFrames : list SelectEntry)
    : option SettingsTreeNode :=
  let node := settingsNodeProvider layer in
  Some {| nodeLabel := Some (nodeLabel node ?? layerLabel layer);
          nodeVisible := Some (nodeVisible node ?? visible layer);
          defaultExpansionState := Some (defaultExpansionState node ?? "collapsed");
          fields := alter (extendOptions coordinateFrames) "frameId" <$> fields node;
          actions := actions node;
          error := error node |}.

(** The body of the loop of [buildSettingsTree]: the child node for one
    layer, if any.  [errorAtPath] of the diagnostics store is a parameter. *)
Definition layerChild (errorAtPath : list string -> option string)
    (settingsNodeProviders : LayerType -> option SettingsNodeProvider)
    (coordinateFrames : list SelectEntry)
    (layerId : string) (layer : CustomLayerSettings) : option SettingsTreeNode :=
  match settingsNodeProviders (type layer) with
  | None => None
  | Some settingsNodeProvider =>
      match buildLayerNode layer settingsNodeProvider coordinateFrames with
      | None => None
      | Some newNode =>
          let nodeActions := actions newNode ?? [] in
          let nodeActions :=
            if bool_decide (List.find isDelete nodeActions = None)
            then nodeActions ++ [action "delete" "Delete" None]
            else nodeActions in
          Some {| nodeLabel := nodeLabel newNode;
                  nodeVisible := nodeVisible newNode;
                  defaultExpansionState := defaultExpansionState newNode;
                  fields := fields newNode;
                  actions := Some nodeActions;
                  error := errorAtPath ["layers"; layerId] |}
      end
  end.

(** [buildSettingsTree]: the "layers" root.  The layers of the
    configuration and the children of the root are objects keyed by layer
    id; [uuid] is the result of [uuidv4()]. *)
Definition buildSettingsTree (errorAtPath : list string -> option string)
    (settingsNodeProviders : LayerType -> option SettingsNodeProvider)
    (coordinateFrames : list SelectEntry) (uuid : string)
    (layers : gmap string CustomLayerSettings) : LayersNode :=
  {| layersError := errorAtPath ["layers"];
     layersLabel := "Custom Layers";
     children :=
       map_imap (layerChild errorAtPath settingsNodeProviders coordinateFrames) layers;
     layersExpansionState := "expanded";
     layersActions := [action (String.append "add-grid " uuid) "Add Grid" (Some "Grid")] |}.

End SettingsTree.

(** ** renderables/FoxgloveGrid.ts: field layout and value ranges *)

Module FoxgloveGrid.

(** [NumericType] of @foxglove/schemas. *)
Inductive NumericType :=
  | UNKNOWN | UINT8 | INT8 | UINT16 | INT16 | UINT32 | INT32 | FLOAT32 | FLOAT64.

Inductive ColorMode := flat | gradient | colormap | rgb | rgba.

#[global] Instance NumericType_eq_dec : EqDecision NumericType.
Proof. solve_decision. Defined.

#[global] Instance ColorMode_eq_dec : EqDecision ColorMode.
Proof. solve_decision. Defined.

(** [PackedElementField] of @foxglove/schemas.  The schema types [offset],
    like the cell stride of a grid, as an unsigned 32-bit integer; both are
    integers here, so a number that is not an integer (or not a number) is
    outside of what follows. *)
Record PackedElementField := mkPackedElementField {
  name : string;
  offset : Z;
  type : NumericType }.

Definition numericTypeWidth (type : NumericType) : Z :=
  match type with
  | INT8 | UINT8 => 1
  | INT16 | UINT16 => 2
  | INT32 | UINT32 | FLOAT32 => 4
  | FLOAT64 => 8
  | UNKNOWN => 0
  end.

(** [Math.pow(2, n)] for the exponents of the table. *)
Definition pow2 (n : Z) : number := Z.ldexp 1 n.

Definition NumericTypeMinMaxValueMap (type : NumericType) : number * number :=
  match type with
  | UNKNOWN => (0, 1)
  | UINT8 => (0, 255)
  | UINT16 => (0, 65535)
  | UINT32 => (0, pow2 32 - 1)
  | INT8 => (-128, 127)
  | INT16 => (- pow2 (16 - 1), - pow2 (16 - 1) - 1)
  | INT32 => (- pow2 (32 - 1), - pow2 (32 - 1) - 1)
  | FLOAT32 => (0, 1)
  | FLOAT64 => (0, 1)
  end%float.

(** [minMaxColorValues]: the output tuple after the call.  The list
    [NEEDS_MIN_MAX] of [pointClouds/colors] is a parameter. *)
Definition minMaxColorValues (NEEDS_MIN_MAX : list ColorMode) (output : number * number)
    (colorMode : ColorMode) (minValue maxValue : option number) (numericType : NumericType)
    : number * number :=
  if negb (bool_decide (colorMode ∈ NEEDS_MIN_MAX)) then output
  else
    let '(numericMin, numericMax) := NumericTypeMinMaxValueMap numericType in
    (minValue ?? numericMin, maxValue ?? numericMax).

(** What [_getFieldReader] reports through [invalidFoxgloveGridError]. *)
Inductive GridError :=
  | InvalidField (field : PackedElementField) (stride : Z)
  | StrideTooSmall (stride minBytesPerCell : Z).

Section FieldReader.

(** Field readers and [getReader] of [pointClouds/fieldReaders] are
    parameters. *)
Context {FieldReader : Type}.
Context (getReader : PackedElementField -> Z -> option NumericType -> option FieldReader).

(** The reader returned: one made by [getReader], or [zeroReader]. *)
Inductive Reader :=
  | zeroReader
  | reader (fieldReader : FieldReader).

(** The loop of [_getFieldReader] over the fields, from the state
    ([colorReader], [minBytesPerCell]); it stops at the first invalid
    colour field. *)
Fixpoint fieldLoop (stride : Z) (colorMode : ColorMode) (colorField : option string)
    (fields : list PackedElementField)
    (colorReader : option FieldReader) (minBytesPerCell : Z)
    : GridError + option FieldReader * Z :=
  match fields with
  | [] => inr (colorReader, minBytesPerCell)
  | field :: rest =>
      let byteWidth := numericTypeWidth (type field) in
      let minBytesPerCell := Z.max minBytesPerCell (offset field + byteWidth) in
      if bool_decide (Some (name field) = colorField) then
        let forceType :=
          if (bool_decide (colorMode = rgb) || bool_decide (colorMode = rgba))
             && (4 <=? byteWidth)
          then Some UINT32 else None in
        match getReader field stride forceType with
        | None => inl (InvalidField field stride)
        | Some colorReader =>
            fieldLoop stride colorMode colorField rest (Some colorReader) minBytesPerCell
        end
      else fieldLoop stride colorMode colorField rest colorReader minBytesPerCell
  end.

Definition _getFieldReader (cell_stride : Z) (fields : list PackedElementField)
    (colorMode : ColorMode) (colorField : option string) : GridError + Reader :=
  match fieldLoop cell_stride colorMode colorField fields None 0 with
  | inl e => inl e
  | inr (colorReader, minBytesPerCell) =>
      if cell_stride <? minBytesPerCell
      then inl (StrideTooSmall cell_stride minBytesPerCell)
      else inr (match colorReader with
                | Some fieldReader => reader fieldReader
                | None => zeroReader
                end)
  end.

End FieldReader.

End FoxgloveGrid.

(** * Properties *)

(** ** normalizeQuaternion *)

Section NormalizeQuaternion.
Import Ros NormalizeMessages.

Lemma number_zero_one : (0 : number)%float <> 1%float.
Proof.
  intros E.
  assert (F : PrimFloat.eqb 0 0 = PrimFloat.eqb 1 0) by (rewrite <- E; reflexivity).
  vm_compute in F. discriminate F.
Qed.

(** C10: [normalizeQuaternion] gives the identity quaternion for an absent
    argument; for a present one every missing component, [w] included,
    becomes 0, so that the empty rotation object, also inside
    [normalizeTransform], becomes the all-zero quaternion, which is not the
    identity and whose norm is 0, not 1. *)
Theorem normalizeQuaternion_defaults :
  normalizeQuaternion None = identityQuaternion /\
  (forall quat,
      normalizeQuaternion (Some quat) =
      {| qx := qx_opt quat ?? 0%float; qy := qy_opt quat ?? 0%float;
         qz := qz_opt quat ?? 0%float; qw := qw_opt quat ?? 0%float |}) /\
  (forall i j k, qw (normalizeQuaternion (Some (mkPartialQuaternion i j k None))) = 0%float) /\
  normalizeQuaternion (Some emptyQuaternion) = zeroQuaternion /\
  zeroQuaternion <> identityQuaternion /\
  squaredNorm zeroQuaternion = 0%float /\
  squaredNorm identityQuaternion = 1%float /\
  (forall translation,
      rotation (normalizeTransform (Some (mkRawTransform translation (Some emptyQuaternion))))
      = zeroQuaternion) /\
  rotation (normalizeTransform None) = identityQuaternion.
Proof.
  repeat split; try reflexivity.
  intros E. apply number_zero_one. exact (f_equal qw E).
Qed.

End NormalizeQuaternion.

(** ** The retention window *)

Section Retention.
Import Transforms Renderer.
Context `{Externals}.

Lemma BigInt_1e9 : BigInt 1e9 = Some 1000000000.
Proof. vm_compute. reflexivity. Qed.

Lemma retention_getOrCreateFrame t frameId :
  retention (getOrCreateFrame t frameId) = retention t.
Proof. unfold getOrCreateFrame. destruct (hasFrame t frameId); reflexivity. Qed.

Lemma retention_addTransform t child parent time tf :
  retention (addTransform t child parent time tf).1 = retention t.
Proof.
  unfold addTransform.
  destruct (malformed tf); simpl; [rewrite !retention_getOrCreateFrame; reflexivity|].
  destruct (String.eqb child parent); simpl.
  - rewrite !retention_getOrCreateFrame. reflexivity.
  - destruct (frame _ child); simpl; rewrite !retention_getOrCreateFrame; reflexivity.
Qed.

Lemma transformTree_addTransformMessage r tf :
  transformTree (addTransformMessage r tf) =
  (addTransform (transformTree r) (Ros.child_frame_id tf) (Ros.frame_id (Ros.header tf))
     (Ros.toNanoSec (Ros.stamp (Ros.header tf))) (transformOf (Ros.transform tf))).1.
Proof.
  unfold addTransformMessage.
  destruct (addTransform _ _ _ _ _) as [tree updated]. simpl.
  destruct (_ || _); [reflexivity|]. destruct updated; reflexivity.
Qed.

Lemma transformTree_updateFixedFrame r renderFrame :
  transformTree (updateFixedFrame r renderFrame) = transformTree r.
Proof.
  unfold updateFixedFrame.
  destruct (frame _ _); [|reflexivity].
  destruct (bool_decide _); [reflexivity|].
  destruct (fixedFrameId r); reflexivity.
Qed.

Lemma transformTree_updateFrames r :
  transformTree (_updateFrames r) = transformTree r.
Proof.
  unfold _updateFrames.
  destruct (renderFrameId r); [apply transformTree_updateFixedFrame|].
  simpl. destruct (defaultFrameId _); [|reflexivity].
  rewrite transformTree_updateFixedFrame. reflexivity.
Qed.

(** The retention window never changes once the renderer is constructed. *)
Lemma retention_reachable r :
  Measures.reachable r -> retention (transformTree r) = 60 * 10 ^ 9.
Proof.
  induction 1 as [r Hnew|r frameId _ IH|r tf _ IH|r _ IH|r f _ IH|r time _ IH].
  - unfold new, TRANSFORM_STORAGE_TIME_NS in Hnew. rewrite BigInt_1e9 in Hnew.
    simpl in Hnew. injection Hnew as <-. reflexivity.
  - unfold addCoordinateFrame. destruct (negb _); [|exact IH].
    simpl. rewrite retention_getOrCreateFrame. exact IH.
  - rewrite transformTree_addTransformMessage, retention_addTransform. exact IH.
  - rewrite transformTree_updateFrames. exact IH.
  - exact IH.
  - exact IH.
Qed.

(** C8: the constant [TRANSFORM_STORAGE_TIME_NS] evaluates to 60 x 10^9
    nanoseconds, that is 60 seconds, and the tree a renderer is constructed
    with has exactly this retention window. *)
Theorem transform_storage_time :
  TRANSFORM_STORAGE_TIME_NS = Some (60 * 10 ^ 9) /\
  60 * 10 ^ 9 = 60 * Ros.toNanoSec (Ros.mkTime 1 0) /\
  exists r, new = Some r /\
            transformTree r = emptyTree (60 * 10 ^ 9) /\
            retention (transformTree r) = 60000000000.
Proof.
  split; [|split].
  - unfold TRANSFORM_STORAGE_TIME_NS. rewrite BigInt_1e9. reflexivity.
  - reflexivity.
  - unfold new, TRANSFORM_STORAGE_TIME_NS. rewrite BigInt_1e9. simpl.
    eexists. split; [reflexivity|]. split; reflexivity.
Qed.

End Retention.

(** ** Frame selection *)

Section FrameSelection.
Import Transforms Renderer.

Lemma frame_Some_id t frameId f : frame t frameId = Some f -> id f = frameId.
Proof.
  unfold frame. intros Hfind. apply find_some in Hfind as [_ Heq].
  apply String.eqb_eq in Heq. exact Heq.
Qed.

Lemma frame_Some_elem t frameId f : frame t frameId = Some f -> f ∈ frames t.
Proof.
  unfold frame. intros Hfind. apply find_some in Hfind as [Hin _].
  apply list_elem_of_In. exact Hin.
Qed.

Lemma frame_None_empty frameId retentionNs : frame (emptyTree retentionNs) frameId = None.
Proof. reflexivity. Qed.

Lemma hasFrame_true t frameId : hasFrame t frameId = true <-> is_Some (frame t frameId).
Proof.
  unfold hasFrame. destruct (frame t frameId); split; intros Hx;
    try reflexivity; try (eexists; reflexivity); try discriminate.
  destruct Hx as [? Hx]. discriminate Hx.
Qed.

Lemma hasFrame_false t frameId : hasFrame t frameId = false <-> frame t frameId = None.
Proof.
  unfold hasFrame. destruct (frame t frameId); split; intros Hx;
    try reflexivity; discriminate.
Qed.

(** The first loop finds the first listed identifier that names a frame. *)
Lemma preferredFrame_Some t ids :
  (exists name, name ∈ ids /\ hasFrame t name = true) ->
  exists before name after,
    ids = before ++ name :: after /\
    hasFrame t name = true /\
    Forall (fun n => hasFrame t n = false) before /\
    preferredFrame t ids = Some name.
Proof.
  induction ids as [|frameId rest IH]; intros (name & Hin & Hhas).
  - inversion Hin.
  - simpl. destruct (frame t frameId) as [f|] eqn:Hframe.
    + exists [], frameId, rest. repeat split.
      * apply hasFrame_true. rewrite Hframe. eexists; reflexivity.
      * constructor.
      * rewrite (frame_Some_id _ _ _ Hframe). reflexivity.
    + assert (Hrest : exists n, n ∈ rest /\ hasFrame t n = true).
      { apply elem_of_cons in Hin as [->|Hin].
        - apply hasFrame_true in Hhas. rewrite Hframe in Hhas.
          destruct Hhas as [? Hhas]. discriminate Hhas.
        - exists name. split; assumption. }
      destruct (IH Hrest) as (before & n & after & -> & Hn & Hbefore & Hpref).
      exists (frameId :: before), n, after. repeat split; try assumption.
      constructor; [apply hasFrame_false; exact Hframe | exact Hbefore].
Qed.

Lemma preferredFrame_None t ids :
  Forall (fun n => hasFrame t n = false) ids -> preferredFrame t ids = None.
Proof.
  induction 1 as [|frameId rest Hhead _ IH]; [reflexivity|].
  simpl. apply hasFrame_false in Hhead. rewrite Hhead. exact IH.
Qed.

(** The first loop reads nothing of the tree but which of the listed
    identifiers name a frame. *)
Lemma preferredFrame_ext t t' ids :
  Forall (fun n => hasFrame t' n = hasFrame t n) ids ->
  preferredFrame t' ids = preferredFrame t ids.
Proof.
  induction 1 as [|frameId rest Hhead _ IH]; [reflexivity|].
  simpl. unfold hasFrame in Hhead.
  destruct (frame t frameId) as [f|] eqn:Hf, (frame t' frameId) as [f'|] eqn:Hf';
    try discriminate Hhead.
  - rewrite (frame_Some_id _ _ _ Hf), (frame_Some_id _ _ _ Hf'). reflexivity.
  - exact IH.
Qed.

(** C3: when at least one of the canonical names is a frame of the tree,
    [defaultFrameId] returns the first name of the list "base_link", "odom",
    "map", "earth" that is one; the result is that of the first loop alone,
    so that any other tree with the same canonical frames present gives the
    same answer whatever its roots are. *)
Theorem defaultFrameId_preferred t :
  (exists name, name ∈ DEFAULT_FRAME_IDS /\ hasFrame t name = true) ->
  DEFAULT_FRAME_IDS = ["base_link"; "odom"; "map"; "earth"] /\
  (exists before name after,
      DEFAULT_FRAME_IDS = before ++ name :: after /\
      hasFrame t name = true /\
      Forall (fun n => hasFrame t n = false) before /\
      defaultFrameId t = Some name) /\
  defaultFrameId t = preferredFrame t DEFAULT_FRAME_IDS /\
  (forall t',
      Forall (fun n => hasFrame t' n = hasFrame t n) DEFAULT_FRAME_IDS ->
      defaultFrameId t' = defaultFrameId t).
Proof.
  intros Hsome.
  destruct (preferredFrame_Some t DEFAULT_FRAME_IDS Hsome)
    as (before & name & after & Hsplit & Hhas & Hbefore & Hpref).
  assert (Hdefault : defaultFrameId t = Some name).
  { unfold defaultFrameId. rewrite Hpref. reflexivity. }
  split; [reflexivity|]. split; [|split].
  - exists before, name, after. repeat split; assumption.
  - rewrite Hdefault, Hpref. reflexivity.
  - intros t' Hsame. rewrite Hdefault. unfold defaultFrameId.
    rewrite (preferredFrame_ext t t' _ Hsame), Hpref. reflexivity.
Qed.

Lemma defaultFrameId_preferred_witness :
  defaultFrameId Scenario.robotTree = Some "base_link".
Proof.
  assert (Hsome : exists name,
             name ∈ DEFAULT_FRAME_IDS /\ hasFrame Scenario.robotTree name = true).
  { exists "map". split; [|reflexivity]. unfold DEFAULT_FRAME_IDS. set_solver. }
  destruct (defaultFrameId_preferred Scenario.robotTree Hsome) as (_ & _ & -> & _).
  reflexivity.
Defined.

(** *** _updateFrames *)

Lemma renderFrameId_updateFixedFrame r renderFrame :
  renderFrameId (updateFixedFrame r renderFrame) = renderFrameId r.
Proof.
  unfold updateFixedFrame.
  destruct (frame _ _); [|reflexivity].
  destruct (bool_decide _); [reflexivity|].
  destruct (fixedFrameId r); reflexivity.
Qed.

(** C5, the claim at a concrete input: the render frame "gone" is not in
    the tree, the selection policy would choose "base_link", and after
    [_updateFrames] the render frame is still "gone". *)
Lemma updateFrames_keeps_invalid_render_frame :
  renderFrameId Scenario.staleRenderer = Some "gone" /\
  hasFrame (transformTree Scenario.staleRenderer) "gone" = false /\
  defaultFrameId (transformTree Scenario.staleRenderer) = Some "base_link" /\
  renderFrameId (_updateFrames Scenario.staleRenderer) = Some "gone" /\
  renderFrameId (_updateFrames Scenario.staleRenderer)
    <> defaultFrameId (transformTree (_updateFrames Scenario.staleRenderer)).
Proof. repeat split. vm_compute. discriminate. Qed.

(** C5 as the code has it: the selection policy is evaluated by
    [_updateFrames] exactly when no render frame is set, and its answer
    becomes the render frame; a render frame that is set is never replaced,
    and when it names no frame of the tree the fixed frame is cleared
    instead. *)
Theorem updateFrames_selection r :
  (renderFrameId r = None ->
     renderFrameId (_updateFrames r) = defaultFrameId (transformTree r)) /\
  (forall renderFrame,
     renderFrameId r = Some renderFrame ->
     renderFrameId (_updateFrames r) = Some renderFrame /\
     (hasFrame (transformTree r) renderFrame = false ->
        fixedFrameId (_updateFrames r) = None /\
        debugLog (_updateFrames r) = debugLog r)).
Proof.
  unfold _updateFrames. split.
  - intros ->. simpl. destruct (defaultFrameId (transformTree r)) as [d|]; [|reflexivity].
    rewrite renderFrameId_updateFixedFrame. reflexivity.
  - intros renderFrame Hset. rewrite Hset. split.
    + rewrite renderFrameId_updateFixedFrame. exact Hset.
    + intros Hno. apply hasFrame_false in Hno.
      unfold updateFixedFrame. rewrite Hno. split; reflexivity.
Qed.

Lemma updateFrames_selection_witness :
  renderFrameId (_updateFrames Scenario.freshRenderer) = Some "base_link" /\
  renderFrameId (_updateFrames Scenario.staleRenderer) = Some "gone" /\
  fixedFrameId (_updateFrames Scenario.staleRenderer) = None.
Proof.
  destruct (updateFrames_selection Scenario.freshRenderer) as [Hfresh _].
  destruct (updateFrames_selection Scenario.staleRenderer) as [_ Hstale].
  destruct (Hstale "gone" eq_refl) as [Hkept Hcleared].
  split; [|split].
  - rewrite (Hfresh eq_refl). reflexivity.
  - exact Hkept.
  - exact (proj1 (Hcleared eq_refl)).
Defined.

End FrameSelection.

(** ** Ingestion of transforms *)

Section Ingestion.
Import Transforms Renderer.

(** C6: [addTransformMessage] hands the transform to the tree, and then
    emits "transformTreeUpdated" (once) and rebuilds the coordinate-frame
    list from the new tree if the parent or the child frame was absent
    before the call or [addTransform] reported an update; otherwise it
    emits nothing and leaves the cached list as it was. *)
Theorem addTransformMessage_notifies `{Externals} r tf :
  let parentFrameId := Ros.frame_id (Ros.header tf) in
  let childFrameId := Ros.child_frame_id tf in
  let result :=
    addTransform (transformTree r) childFrameId parentFrameId
      (Ros.toNanoSec (Ros.stamp (Ros.header tf))) (transformOf (Ros.transform tf)) in
  let r' := addTransformMessage r tf in
  transformTree r' = result.1 /\
  if negb (hasFrame (transformTree r) parentFrameId)
     || negb (hasFrame (transformTree r) childFrameId)
     || result.2
  then emitted r' = emitted r ++ [transformTreeUpdated] /\
       coordinateFrameList r' = frameList result.1
  else emitted r' = emitted r /\
       coordinateFrameList r' = coordinateFrameList r.
Proof.
  simpl. unfold addTransformMessage.
  destruct (addTransform _ _ _ _ _) as [tree updated]. simpl.
  destruct (negb (hasFrame _ (Ros.frame_id _)) || negb (hasFrame _ (Ros.child_frame_id _)));
    simpl; [auto|].
  destruct updated; simpl; auto.
Qed.

(** *** What the tree does with the transform it is handed *)

Lemma find_app_Some {A} (p : A -> bool) (l l' : list A) a :
  List.find p l = Some a -> List.find p (l ++ l') = Some a.
Proof.
  induction l as [|b l IH]; [discriminate|].
  simpl. destruct (p b); [auto|exact IH].
Qed.

Lemma frame_getOrCreateFrame_same t frameId :
  is_Some (frame (getOrCreateFrame t frameId) frameId).
Proof.
  unfold getOrCreateFrame. destruct (hasFrame t frameId) eqn:Hhas.
  - apply hasFrame_true. exact Hhas.
  - apply hasFrame_false in Hhas. unfold frame in *. simpl.
    exists (mkFrame frameId []).
    induction (frames t) as [|f fs IH]; simpl in *.
    + rewrite String.eqb_refl. reflexivity.
    + destruct (String.eqb (id f) frameId); [discriminate|exact (IH Hhas)].
Qed.

Lemma frame_getOrCreateFrame_keeps t frameId other f :
  frame t frameId = Some f -> frame (getOrCreateFrame t other) frameId = Some f.
Proof.
  intros Hf. unfold getOrCreateFrame. destruct (hasFrame t other); [exact Hf|].
  unfold frame in *. simpl. apply find_app_Some. exact Hf.
Qed.

Lemma frame_replaceFrame t retentionNs rejected f f' :
  id f' = id f ->
  frame t (id f) = Some f ->
  frame (mkTransformTree (replaceFrame f' (frames t)) retentionNs rejected) (id f) = Some f'.
Proof.
  intros Hid. unfold frame. simpl. induction (frames t) as [|g fs IH]; [discriminate|].
  simpl. rewrite Hid. destruct (String.eqb (id g) (id f)) eqn:Hg.
  - intros _. rewrite Hid, String.eqb_refl. reflexivity.
  - rewrite Hg. exact IH.
Qed.

(** The tree sees the seven numbers of the record as they are. *)
Lemma malformed_transformOf tf : malformed (transformOf tf) = Measures.malformed tf.
Proof. destruct tf as [[tx ty tz] [qi qj qk qw]]. reflexivity. Qed.

(** A malformed transform is rejected after the frames it names are
    created: the rejection is logged and no edge is handed to a frame. *)
Lemma addTransform_malformed t childId parentFrameId time tf :
  malformed tf = true ->
  addTransform t childId parentFrameId time tf =
  (reject (getOrCreateFrame (getOrCreateFrame t childId) parentFrameId)
     (MalformedTransform childId parentFrameId time),
   negb (hasFrame t childId) || negb (hasFrame t parentFrameId)).
Proof. intros Hmalformed. unfold addTransform. rewrite Hmalformed. reflexivity. Qed.

Lemma rejections_getOrCreateFrame t frameId :
  rejections (getOrCreateFrame t frameId) = rejections t.
Proof. unfold getOrCreateFrame. destruct (hasFrame t frameId); reflexivity. Qed.

Lemma insertEdge_elem e es : e ∈ insertEdge e es.
Proof.
  induction es as [|e' rest IH]; simpl; [set_solver|].
  destruct (timestamp e <? timestamp e'); [set_solver|].
  destruct (timestamp e =? timestamp e'); set_solver.
Qed.

(** A well-formed transform between distinct frames is not rejected: its
    edge is in the child's history afterwards and nothing is logged. *)
Lemma addTransform_stores t childId parentFrameId time tf :
  malformed tf = false ->
  childId <> parentFrameId ->
  rejections (addTransform t childId parentFrameId time tf).1 = rejections t /\
  exists child,
    frame (addTransform t childId parentFrameId time tf).1 childId = Some child /\
    id child = childId /\
    mkEdge time parentFrameId tf ∈ edges child.
Proof.
  intros Hwell Hne. unfold addTransform. rewrite Hwell.
  apply String.eqb_neq in Hne. rewrite Hne.
  destruct (frame_getOrCreateFrame_same t childId) as [child Hchild].
  apply (frame_getOrCreateFrame_keeps _ _ parentFrameId) in Hchild.
  rewrite Hchild. cbn [fst rejections].
  pose proof (frame_Some_id _ _ _ Hchild) as Hid.
  split; [rewrite !rejections_getOrCreateFrame; reflexivity|].
  eexists. split; [|split].
  - rewrite <- Hid. apply frame_replaceFrame; [reflexivity|].
    rewrite Hid. exact Hchild.
  - exact Hid.
  - simpl. apply insertEdge_elem.
Qed.

(** Creating a frame leaves every history as it is and adds at most the
    empty history of the frame created. *)
Lemma histories_getOrCreateFrame t frameId :
  exists created,
    Measures.histories (getOrCreateFrame t frameId) = Measures.histories t ++ created /\
    Forall (fun history => history = (frameId, [])) created.
Proof.
  unfold getOrCreateFrame, Measures.histories. destruct (hasFrame t frameId).
  - exists []. rewrite app_nil_r. split; [reflexivity|constructor].
  - exists [(frameId, [])]. simpl. rewrite fmap_app. split; [reflexivity|].
    constructor; [reflexivity|constructor].
Qed.

(** C7: a record with a number that is not finite, or with a rotation
    whose norm is not a positive number, is rejected at ingestion.
    [addTransformMessage] hands its seven numbers to the tree as they are,
    so the tree sees a malformed transform; the rejection is logged with
    the two frames and the stamp of the record; the edge is dropped: every
    history of the tree is what it was before, and the only histories
    added are the empty ones of the frames the record names, where these
    were absent; and every frame known before is unchanged. *)
Theorem addTransformMessage_rejects_malformed `{Externals} r tf :
  Measures.malformed (Ros.transform tf) = true ->
  let r' := addTransformMessage r tf in
  let childFrameId := Ros.child_frame_id tf in
  let parentFrameId := Ros.frame_id (Ros.header tf) in
  let stamp := Ros.toNanoSec (Ros.stamp (Ros.header tf)) in
  malformed (transformOf (Ros.transform tf)) = true /\
  rejections (transformTree r') =
    rejections (transformTree r) ++ [MalformedTransform childFrameId parentFrameId stamp] /\
  (exists created,
      Measures.histories (transformTree r') = Measures.histories (transformTree r) ++ created /\
      Forall (fun history => history = (childFrameId, []) \/ history = (parentFrameId, []))
        created) /\
  (forall frameId f,
      frame (transformTree r) frameId = Some f ->
      frame (transformTree r') frameId = Some f) /\
  (hasFrame (transformTree r) childFrameId = true ->
   hasFrame (transformTree r) parentFrameId = true ->
   frames (transformTree r') = frames (transformTree r) /\
   emitted r' = emitted r /\
   debugLog r' = debugLog r).
Proof.
  intros Hmalformed. cbv zeta.
  rewrite <- malformed_transformOf in Hmalformed.
  split; [exact Hmalformed|].
  rewrite transformTree_addTransformMessage.
  rewrite (addTransform_malformed _ _ _ _ _ Hmalformed). cbn [fst].
  split; [|split; [|split]].
  - unfold reject. cbn [rejections]. rewrite !rejections_getOrCreateFrame. reflexivity.
  - unfold reject, Measures.histories. cbn [frames].
    destruct (histories_getOrCreateFrame (transformTree r) (Ros.child_frame_id tf))
      as (first & Hfirst & Hempty).
    destruct (histories_getOrCreateFrame
                (getOrCreateFrame (transformTree r) (Ros.child_frame_id tf))
                (Ros.frame_id (Ros.header tf)))
      as (second & Hsecond & Hempty').
    unfold Measures.histories in Hfirst, Hsecond.
    exists (first ++ second). split.
    + rewrite Hsecond, Hfirst, app_assoc. reflexivity.
    + apply Forall_app. split.
      * eapply Forall_impl; [exact Hempty|]. intros history ->. left. reflexivity.
      * eapply Forall_impl; [exact Hempty'|]. intros history ->. right. reflexivity.
  - intros frameId f Hf. unfold reject, frame. cbn [frames].
    apply (frame_getOrCreateFrame_keeps _ _ (Ros.frame_id (Ros.header tf))).
    apply (frame_getOrCreateFrame_keeps _ _ (Ros.child_frame_id tf)). exact Hf.
  - intros Hchild Hparent. unfold addTransformMessage.
    rewrite (addTransform_malformed _ _ _ _ _ Hmalformed).
    rewrite Hchild, Hparent. cbn.
    unfold getOrCreateFrame. rewrite Hchild, Hparent. auto.
Qed.

Lemma addTransformMessage_rejects_malformed_witness :
  let tf := NormalizeMessages.normalizeTransformStamped (Some Scenario.emptyRotationMessage) in
  let r' := @addTransformMessage Scenario.externals Scenario.freshRenderer tf in
  Measures.malformed (Ros.transform tf) = true /\
  rejections (transformTree r') = [MalformedTransform "base_link" "odom" 1000000000] /\
  frames (transformTree r') = frames Scenario.robotTree.
Proof.
  pose proof (@addTransformMessage_rejects_malformed Scenario.externals
                Scenario.freshRenderer
                (NormalizeMessages.normalizeTransformStamped
                   (Some Scenario.emptyRotationMessage)) eq_refl)
    as (_ & Hlog & _ & _ & Hknown).
  split; [reflexivity|]. split; [exact Hlog|].
  exact (proj1 (Hknown eq_refl eq_refl)).
Defined.

End Ingestion.

(** ** Pose resolution per renderable *)

Section StartFrame.
Import Transforms LayerErrors SceneExtension.
Context `{Externals}.

Lemma startFrame_app tree currentTime renderFrameId fixedFrameId before after st :
  startFrame tree currentTime renderFrameId fixedFrameId (before ++ after) st =
  let mid := startFrame tree currentTime renderFrameId fixedFrameId before st in
  let rest := startFrame tree currentTime renderFrameId fixedFrameId after mid.2 in
  (mid.1 ++ rest.1, rest.2).
Proof.
  revert st. induction before as [|[key r] before IH]; intros st; simpl.
  - destruct (startFrame _ _ _ _ after st). reflexivity.
  - destruct (startFrameBody _ _ _ _ st r) as [r' st1].
    rewrite IH. simpl.
    destruct (startFrame _ _ _ _ before st1) as [before' st2]. simpl.
    destruct (startFrame _ _ _ _ after st2) as [after' st3]. reflexivity.
Qed.

(** One iteration for a visible renderable: the single call it makes. *)
Lemma startFrameBody_visible tree currentTime renderFrameId fixedFrameId st r :
  visible (settings r) = true ->
  let r1 := setObjectVisible r true in
  let srcTime := Measures.sourceTime currentTime r in
  let outcome :=
    resolveRenderPose tree renderFrameId fixedFrameId (frameId r) currentTime srcTime in
  startFrameBody tree currentTime renderFrameId fixedFrameId st r =
  (match outcome with Some pose => setObjectPose r1 pose | None => r1 end,
   {| errors :=
        match outcome with
        | Some _ => remove (errors st) (settingsPath r) MISSING_TRANSFORM
        | None =>
            add (errors st) (settingsPath r) MISSING_TRANSFORM
              (missingTransformMessage renderFrameId fixedFrameId (frameId r))
        end;
      calls :=
        calls st ++
        [mkUpdatePoseCall r1 renderFrameId fixedFrameId (frameId r) currentTime srcTime] |}).
Proof.
  intros Hvisible. unfold startFrameBody, Measures.sourceTime. rewrite Hvisible. simpl.
  unfold updatePose. simpl.
  destruct (frameLocked (settings r)) as [[|]|]; simpl;
    destruct (resolveRenderPose _ _ _ _ _ _); reflexivity.
Qed.

Lemma startFrameBody_hidden tree currentTime renderFrameId fixedFrameId st r :
  visible (settings r) = false ->
  startFrameBody tree currentTime renderFrameId fixedFrameId st r =
  (setObjectVisible r false,
   {| errors := clearPath (errors st) (settingsPath r); calls := calls st |}).
Proof. intros Hhidden. unfold startFrameBody. rewrite Hhidden. reflexivity. Qed.

Lemma sourceTime_nullish currentTime r :
  Measures.sourceTime currentTime r =
  if frameLocked (settings r) ?? true then currentTime else messageTime r.
Proof. unfold Measures.sourceTime. destruct (frameLocked (settings r)) as [[|]|]; reflexivity. Qed.

(** The tick up to and including a visible renderable: the renderable and
    the diagnostics are what the one call of [updatePose] gives. *)
Lemma startFrame_snoc_visible tree currentTime renderFrameId fixedFrameId before key r st :
  visible (settings r) = true ->
  let earlier := startFrame tree currentTime renderFrameId fixedFrameId before st in
  let srcTime := Measures.sourceTime currentTime r in
  let result :=
    updatePose (setObjectVisible r true) tree renderFrameId fixedFrameId (frameId r)
      currentTime srcTime in
  startFrame tree currentTime renderFrameId fixedFrameId (before ++ [(key, r)]) st =
  (earlier.1 ++ [(key, result.1)],
   {| errors :=
        if result.2 then remove (errors earlier.2) (settingsPath r) MISSING_TRANSFORM
        else add (errors earlier.2) (settingsPath r) MISSING_TRANSFORM
               (missingTransformMessage renderFrameId fixedFrameId (frameId r));
      calls :=
        calls earlier.2 ++
        [mkUpdatePoseCall (setObjectVisible r true) renderFrameId fixedFrameId (frameId r)
           currentTime srcTime] |}).
Proof.
  intros Hvisible. cbv zeta. rewrite startFrame_app. cbv zeta.
  destruct (startFrame tree currentTime renderFrameId fixedFrameId before st)
    as [before' st'].
  cbn [startFrame fst snd].
  rewrite (startFrameBody_visible _ _ _ _ _ _ Hvisible). cbv zeta.
  unfold updatePose.
  destruct (resolveRenderPose _ _ _ _ _ _); reflexivity.
Qed.

Lemma startFrame_snoc_continues tree currentTime renderFrameId fixedFrameId before key r st after :
  startFrame tree currentTime renderFrameId fixedFrameId (before ++ (key, r) :: after) st =
  let processed :=
    startFrame tree currentTime renderFrameId fixedFrameId (before ++ [(key, r)]) st in
  let rest := startFrame tree currentTime renderFrameId fixedFrameId after processed.2 in
  (processed.1 ++ rest.1, rest.2).
Proof.
  replace (before ++ (key, r) :: after) with ((before ++ [(key, r)]) ++ after)
    by (rewrite <- app_assoc; reflexivity).
  apply startFrame_app.
Qed.

(** C1: when [startFrame] processes a visible renderable in a tick at
    [currentTime], the renderable it leaves, and the diagnostic it adds or
    removes, are those of [updatePose] called with the source time
    [srcTime], which is [currentTime] when the renderable is frame-locked
    and the renderable's message time when it is not.  That call is the one
    call made for the renderable, and the rest of the tick continues from
    that state.  Pose resolution is a parameter, so the statement holds
    however the result depends on the source time. *)
Theorem startFrame_source_time tree currentTime renderFrameId fixedFrameId before key r st :
  visible (settings r) = true ->
  let earlier := startFrame tree currentTime renderFrameId fixedFrameId before st in
  let processed :=
    startFrame tree currentTime renderFrameId fixedFrameId (before ++ [(key, r)]) st in
  let srcTime := if frameLocked (settings r) ?? true then currentTime else messageTime r in
  let result :=
    updatePose (setObjectVisible r true) tree renderFrameId fixedFrameId (frameId r)
      currentTime srcTime in
  (frameLocked (settings r) = Some true -> srcTime = currentTime) /\
  (frameLocked (settings r) = Some false -> srcTime = messageTime r) /\
  processed.1 = earlier.1 ++ [(key, result.1)] /\
  errors processed.2 =
    (if result.2 then remove (errors earlier.2) (settingsPath r) MISSING_TRANSFORM
     else add (errors earlier.2) (settingsPath r) MISSING_TRANSFORM
            (missingTransformMessage renderFrameId fixedFrameId (frameId r))) /\
  calls processed.2 =
    calls earlier.2 ++
    [mkUpdatePoseCall (setObjectVisible r true) renderFrameId fixedFrameId (frameId r)
       currentTime srcTime] /\
  (forall after,
      startFrame tree currentTime renderFrameId fixedFrameId
        (before ++ (key, r) :: after) st =
      let rest :=
        startFrame tree currentTime renderFrameId fixedFrameId after processed.2 in
      (processed.1 ++ rest.1, rest.2)).
Proof.
  intros Hvisible. cbv zeta.
  split; [intros ->; reflexivity|]. split; [intros ->; reflexivity|].
  rewrite (startFrame_snoc_visible _ _ _ _ _ _ _ _ Hvisible). cbv zeta.
  rewrite sourceTime_nullish. cbn [fst snd errors calls].
  repeat split.
  intros after. rewrite startFrame_snoc_continues. cbv zeta.
  rewrite (startFrame_snoc_visible _ _ _ _ _ _ _ _ Hvisible). cbv zeta.
  rewrite sourceTime_nullish. reflexivity.
Qed.

(** C9: a visible renderable whose settings leave [frameLocked] unspecified
    is treated as frame-locked: the renderable [startFrame] leaves, and the
    diagnostic it adds or removes, are those of [updatePose] called with
    the current time as the source time, whatever the renderable's message
    time is; that call is the one call made for the renderable. *)
Theorem startFrame_frameLocked_default
    tree currentTime renderFrameId fixedFrameId before key r st :
  visible (settings r) = true ->
  frameLocked (settings r) = None ->
  let earlier := startFrame tree currentTime renderFrameId fixedFrameId before st in
  let processed :=
    startFrame tree currentTime renderFrameId fixedFrameId (before ++ [(key, r)]) st in
  let result :=
    updatePose (setObjectVisible r true) tree renderFrameId fixedFrameId (frameId r)
      currentTime currentTime in
  processed.1 = earlier.1 ++ [(key, result.1)] /\
  errors processed.2 =
    (if result.2 then remove (errors earlier.2) (settingsPath r) MISSING_TRANSFORM
     else add (errors earlier.2) (settingsPath r) MISSING_TRANSFORM
            (missingTransformMessage renderFrameId fixedFrameId (frameId r))) /\
  calls processed.2 =
    calls earlier.2 ++
    [mkUpdatePoseCall (setObjectVisible r true) renderFrameId fixedFrameId (frameId r)
       currentTime currentTime] /\
  (forall after,
      startFrame tree currentTime renderFrameId fixedFrameId
        (before ++ (key, r) :: after) st =
      let rest :=
        startFrame tree currentTime renderFrameId fixedFrameId after processed.2 in
      (processed.1 ++ rest.1, rest.2)).
Proof.
  intros Hvisible Hunspecified. cbv zeta.
  assert (Hsrc : Measures.sourceTime currentTime r = currentTime).
  { unfold Measures.sourceTime. rewrite Hunspecified. reflexivity. }
  rewrite (startFrame_snoc_visible _ _ _ _ _ _ _ _ Hvisible). cbv zeta.
  rewrite Hsrc. cbn [fst snd errors calls].
  repeat split.
  intros after. rewrite startFrame_snoc_continues. cbv zeta.
  rewrite (startFrame_snoc_visible _ _ _ _ _ _ _ _ Hvisible). cbv zeta.
  rewrite Hsrc. reflexivity.
Qed.


(** C2: when [startFrame] has processed a visible renderable (it is the
    last of the renderables processed so far), then, if no pose could be
    resolved, the diagnostic at the renderable's settings path and the
    missing-transform code is the message built from the render frame, the
    fixed frame and the renderable's frame, and the renderable's pose is
    untouched; if a pose was resolved, it is the renderable's pose and
    there is no missing-transform diagnostic at that path.  The rest of the
    tick continues from that state. *)
Theorem startFrame_diagnostic tree currentTime renderFrameId fixedFrameId before key r st :
  visible (settings r) = true ->
  let processed :=
    startFrame tree currentTime renderFrameId fixedFrameId (before ++ [(key, r)]) st in
  let srcTime := if frameLocked (settings r) ?? true then currentTime else messageTime r in
  (forall after,
      startFrame tree currentTime renderFrameId fixedFrameId
        (before ++ (key, r) :: after) st =
      let rest :=
        startFrame tree currentTime renderFrameId fixedFrameId after processed.2 in
      (processed.1 ++ rest.1, rest.2)) /\
  match resolveRenderPose tree renderFrameId fixedFrameId (frameId r) currentTime srcTime with
  | None =>
      errorAt (errors processed.2) (settingsPath r) MISSING_TRANSFORM
        = Some (missingTransformMessage renderFrameId fixedFrameId (frameId r)) /\
      exists r', last processed.1 = Some (key, r') /\ objectPose r' = objectPose r
  | Some pose =>
      errorAt (errors processed.2) (settingsPath r) MISSING_TRANSFORM = None /\
      exists r', last processed.1 = Some (key, r') /\ objectPose r' = pose
  end.
Proof.
  intros Hvisible. cbv zeta. split.
  - intros after.
    replace (before ++ (key, r) :: after) with ((before ++ [(key, r)]) ++ after)
      by (rewrite <- app_assoc; reflexivity).
    rewrite startFrame_app. reflexivity.
  - rewrite startFrame_app. cbv zeta.
    destruct (startFrame tree currentTime renderFrameId fixedFrameId before st)
      as [before' st'].
    cbn [startFrame fst snd].
    rewrite (startFrameBody_visible _ _ _ _ _ _ Hvisible). cbv zeta.
    rewrite sourceTime_nullish.
    destruct (resolveRenderPose _ _ _ _ _ _) as [pose|]; cbn [fst snd errors].
    + split.
      * unfold errorAt, remove. apply lookup_delete_eq.
      * eexists. split; [apply last_snoc|]. reflexivity.
    + split.
      * unfold errorAt, add. apply lookup_insert_eq.
      * eexists. split; [apply last_snoc|]. reflexivity.
Qed.


End StartFrame.

Section StartFrameAtInputs.
Import Transforms LayerErrors SceneExtension.

Lemma startFrame_source_time_witness :
  let processed :=
    @startFrame Scenario.timedExternals Scenario.robotTree 100 "base_link" "map"
      ([("c", Scenario.locked)] ++ [("e", Scenario.stamped)]) Scenario.noCalls in
  call_srcTime <$> calls processed.2 = [100; 7] /\
  errorAt (errors processed.2) ["topics"; "/e"] "MISSING_TRANSFORM"
    = Some "base_link map odom" /\
  errorAt (errors processed.2) ["topics"; "/c"] "MISSING_TRANSFORM" = None.
Proof.
  pose proof (@startFrame_source_time Scenario.timedExternals Scenario.robotTree 100
                "base_link" "map" [("c", Scenario.locked)] "e" Scenario.stamped
                Scenario.noCalls eq_refl) as Hstamped.
  cbv zeta in Hstamped. destruct Hstamped as (_ & _ & _ & Herrors & Hcalls & _).
  cbv zeta. split; [|split].
  - rewrite Hcalls. reflexivity.
  - rewrite Herrors. reflexivity.
  - reflexivity.
Defined.

Lemma startFrame_frameLocked_default_witness :
  let processed :=
    @startFrame Scenario.timedExternals Scenario.robotTree 100 "base_link" "map"
      ([] ++ [("f", Scenario.undecided)]) Scenario.noCalls in
  messageTime Scenario.undecided = 7 /\
  call_srcTime <$> calls processed.2 = [100] /\
  processed.1 = [("f", setObjectVisible Scenario.undecided true)] /\
  errorAt (errors processed.2) ["topics"; "/f"] "MISSING_TRANSFORM" = None.
Proof.
  pose proof (@startFrame_frameLocked_default Scenario.timedExternals Scenario.robotTree 100
                "base_link" "map" [] "f" Scenario.undecided
                Scenario.noCalls eq_refl eq_refl) as Hundecided.
  cbv zeta in Hundecided. destruct Hundecided as (Hresult & Herrors & Hcalls & _).
  cbv zeta. split; [reflexivity|]. split; [|split].
  - rewrite Hcalls. reflexivity.
  - rewrite Hresult. reflexivity.
  - rewrite Herrors. reflexivity.
Defined.

Lemma startFrame_diagnostic_witness :
  let processed :=
    @startFrame Scenario.externals Scenario.robotTree 100 "base_link" "map"
      ([("a", Scenario.unspecified)] ++ [("b", Scenario.unlocked)]) Scenario.noCalls in
  errorAt (SceneExtension.errors processed.2) ["topics"; "/b"] "MISSING_TRANSFORM"
    = Some "base_link map nowhere".
Proof.
  exact (proj1 (proj2 (@startFrame_diagnostic Scenario.externals Scenario.robotTree 100
                         "base_link" "map" [("a", Scenario.unspecified)]
                         "b" Scenario.unlocked Scenario.noCalls eq_refl))).
Defined.

End StartFrameAtInputs.

(** ** The fallback of defaultFrameId *)

Section RootCounting.
Import Transforms Renderer.

(** *** The insertion-ordered map *)

Lemma Map_get_set m key v key' :
  Map_get (Map_set m key v) key' =
  if String.eqb key key' then Some v else Map_get m key'.
Proof.
  unfold Map_get. induction m as [|[k w] m IH]; simpl.
  - destruct (String.eqb key key'); reflexivity.
  - destruct (String.eqb k key) eqn:Hk; simpl.
    + apply String.eqb_eq in Hk as ->.
      destruct (String.eqb key key'); reflexivity.
    + destruct (String.eqb k key') eqn:Hk'; simpl.
      * apply String.eqb_eq in Hk' as ->.
        rewrite String.eqb_sym, Hk. reflexivity.
      * exact IH.
Qed.

Lemma Map_set_keys m key v :
  (Map_set m key v).*1 = if bool_decide (key ∈ m.*1) then m.*1 else m.*1 ++ [key].
Proof.
  induction m as [|[k w] m IH]; [reflexivity|].
  cbn [Map_set]. destruct (String.eqb k key) eqn:Hk; rewrite !fmap_cons; cbn [fst].
  - apply String.eqb_eq in Hk as ->.
    rewrite bool_decide_eq_true_2; [reflexivity|]. apply list_elem_of_here.
  - apply String.eqb_neq in Hk. rewrite IH.
    destruct (decide (key ∈ m.*1)) as [Hin|Hout].
    + rewrite (bool_decide_eq_true_2 _ Hin).
      rewrite bool_decide_eq_true_2; [reflexivity|].
      apply list_elem_of_further. exact Hin.
    + rewrite (bool_decide_eq_false_2 _ Hout).
      rewrite bool_decide_eq_false_2; [reflexivity|].
      intros Hin. apply elem_of_cons in Hin as [->|Hin]; [apply Hk; reflexivity|].
      exact (Hout Hin).
Qed.

Lemma Map_get_elem m key v :
  NoDup m.*1 -> (key, v) ∈ m -> Map_get m key = Some v.
Proof.
  unfold Map_get. induction m as [|[k w] m IH]; intros Hnodup Hin.
  - inversion Hin.
  - simpl in *. apply NoDup_cons in Hnodup as [Hfresh Hnodup].
    apply elem_of_cons in Hin as [Heq|Hin].
    + injection Heq as <- <-. rewrite String.eqb_refl. reflexivity.
    + destruct (String.eqb k key) eqn:Hk.
      * apply String.eqb_eq in Hk as ->. exfalso. apply Hfresh.
        apply list_elem_of_fmap. exists (key, v). split; [reflexivity|exact Hin].
      * exact (IH Hnodup Hin).
Qed.

Lemma Map_get_Some_elem m key v : Map_get m key = Some v -> (key, v) ∈ m.
Proof.
  unfold Map_get. induction m as [|[k w] m IH]; [discriminate|].
  simpl. destruct (String.eqb k key) eqn:Hk; simpl.
  - apply String.eqb_eq in Hk as ->. intros [= ->]. apply list_elem_of_here.
  - intros Hget. apply list_elem_of_further. exact (IH Hget).
Qed.

(** *** The counting loop *)

Lemma rootCount_cons f fs t key :
  Z.of_nat (length (filter (fun g => id (root t g) = key) (f :: fs))) =
  (if String.eqb (id (root t f)) key then 1 else 0)
  + Z.of_nat (length (filter (fun g => id (root t g) = key) fs)).
Proof.
  rewrite filter_cons. destruct (String.eqb_spec (id (root t f)) key) as [Heq|Hne].
  - rewrite decide_True by exact Heq. simpl length. lia.
  - rewrite decide_False by exact Hne. lia.
Qed.

Lemma foldl_countRoot_get t fs m key :
  Map_get (foldl (countRoot t) m fs) key =
  let seenHere := Z.of_nat (length (filter (fun g => id (root t g) = key) fs)) in
  match Map_get m key with
  | Some v => Some (v + seenHere)
  | None => if seenHere =? 0 then None else Some seenHere
  end.
Proof.
  revert m. induction fs as [|f fs IH]; intros m; cbv zeta.
  - simpl. destruct (Map_get m key); [f_equal; lia|reflexivity].
  - simpl foldl. rewrite IH. cbv zeta.
    rewrite (rootCount_cons f fs t key).
    unfold countRoot at 1. rewrite Map_get_set.
    destruct (String.eqb (id (root t f)) key) eqn:Hroot.
    + apply String.eqb_eq in Hroot. rewrite Hroot.
      destruct (Map_get m key) as [v|]; simpl.
      * f_equal. lia.
      * destruct (Z.eqb_spec (1 + Z.of_nat (length (filter (fun g => id (root t g) = key) fs))) 0);
          [lia|f_equal; lia].
    + destruct (Map_get m key); reflexivity.
Qed.

Lemma foldl_countRoot_keys t fs m :
  (foldl (countRoot t) m fs).*1 =
  Measures.firstSeenFrom m.*1 ((fun f => id (root t f)) <$> fs).
Proof.
  revert m. induction fs as [|f fs IH]; intros m; [reflexivity|].
  simpl. rewrite IH. unfold countRoot. rewrite Map_set_keys. reflexivity.
Qed.

Lemma firstSeenFrom_snoc seen l x :
  Measures.firstSeenFrom seen (l ++ [x]) =
  let sofar := Measures.firstSeenFrom seen l in
  if bool_decide (x ∈ sofar) then sofar else sofar ++ [x].
Proof. unfold Measures.firstSeenFrom. rewrite foldl_app. reflexivity. Qed.

Lemma firstSeenFrom_NoDup seen l : NoDup seen -> NoDup (Measures.firstSeenFrom seen l).
Proof.
  revert seen. induction l as [|x l IH]; intros seen Hseen; [exact Hseen|].
  simpl. apply IH. destruct (decide (x ∈ seen)) as [Hin|Hout].
  - rewrite bool_decide_eq_true_2 by exact Hin. exact Hseen.
  - rewrite bool_decide_eq_false_2 by exact Hout.
    apply NoDup_app. split; [exact Hseen|]. split.
    + intros y Hy Hy'. apply list_elem_of_singleton in Hy' as ->. exact (Hout Hy).
    + apply NoDup_singleton.
Qed.

Lemma firstSeenFrom_elem l x : x ∈ Measures.firstSeenFrom [] l <-> x ∈ l.
Proof.
  induction l as [|y l IH] using rev_ind.
  - reflexivity.
  - rewrite firstSeenFrom_snoc. cbv zeta. rewrite elem_of_app, list_elem_of_singleton.
    destruct (decide (y ∈ Measures.firstSeenFrom [] l)) as [Hin|Hout].
    + rewrite bool_decide_eq_true_2 by exact Hin. rewrite IH. split; [auto|].
      intros [Hl| ->]; [exact Hl|]. apply IH. exact Hin.
    + rewrite bool_decide_eq_false_2 by exact Hout.
      rewrite elem_of_app, list_elem_of_singleton, IH. reflexivity.
Qed.

(** A key of the map splits the list it was built from at its first
    occurrence: everything before it is an earlier key. *)
Lemma firstSeenFrom_split l earlier key later :
  Measures.firstSeenFrom [] l = earlier ++ key :: later ->
  exists before after,
    l = before ++ key :: after /\ Forall (fun x => x ∈ earlier) before.
Proof.
  revert later. induction l as [|y l IH] using rev_ind; intros later.
  - intros Hnil. destruct earlier; discriminate Hnil.
  - rewrite firstSeenFrom_snoc. cbv zeta.
    destruct (decide (y ∈ Measures.firstSeenFrom [] l)) as [Hin|Hout].
    + rewrite bool_decide_eq_true_2 by exact Hin. intros Hsplit.
      destruct (IH _ Hsplit) as (before & after & -> & Hbefore).
      exists before, (after ++ [y]). split; [|exact Hbefore].
      rewrite <- app_assoc. reflexivity.
    + rewrite bool_decide_eq_false_2 by exact Hout. intros Hsplit.
      destruct later as [|z later _] using rev_ind.
      * apply (app_inj_tail _ earlier y key) in Hsplit as [Hkeys <-].
        exists l, []. split; [reflexivity|].
        apply Forall_forall. intros x Hx. rewrite <- Hkeys.
        apply firstSeenFrom_elem. exact Hx.
      * replace (earlier ++ key :: later ++ [z]) with ((earlier ++ key :: later) ++ [z])
          in Hsplit by (rewrite <- app_assoc; reflexivity).
        apply app_inj_tail in Hsplit as [Hkeys _].
        destruct (IH _ Hkeys) as (before & after & -> & Hbefore).
        exists before, (after ++ [y]). split; [|exact Hbefore].
        rewrite <- app_assoc. reflexivity.
Qed.

(** *** The sort *)

Lemma sortInsert_head {A} (compareFn : A -> A -> Z) a sorted :
  head (sortInsert compareFn a sorted) =
  match sorted with
  | [] => Some a
  | b :: _ => if compareFn a b <=? 0 then Some a else Some b
  end.
Proof. destruct sorted as [|b rest]; simpl; [|destruct (_ <=? 0)]; reflexivity. Qed.

(** The first element of the array sorted by descending count is the first
    entry with the largest count. *)
Lemma Array_sort_head (m : list (string * Z)) :
  m <> [] ->
  exists e earlier later,
    head (Array_sort (fun a b => b.2 - a.2) m) = Some e /\
    m = earlier ++ e :: later /\
    Forall (fun a => a.2 < e.2) earlier /\
    Forall (fun a => a.2 <= e.2) later.
Proof.
  induction m as [|x m IH]; intros Hne; [contradiction|].
  unfold Array_sort. simpl foldr. fold (Array_sort (fun a b : string * Z => b.2 - a.2) m).
  rewrite sortInsert_head.
  destruct m as [|y m].
  - simpl. exists x, [], []. repeat split; constructor.
  - destruct IH as (e & earlier & later & Hhead & Hsplit & Hlt & Hle); [discriminate|].
    destruct (Array_sort _ (y :: m)) as [|b sorted]; [discriminate Hhead|].
    injection Hhead as ->.
    destruct (Z.leb_spec (e.2 - x.2) 0) as [Hbig|Hsmall].
    + exists x, [], (y :: m). repeat split; [constructor|].
      rewrite Hsplit. apply Forall_app. split.
      * eapply Forall_impl; [exact Hlt|]. simpl. intros a Ha. lia.
      * constructor; [lia|]. eapply Forall_impl; [exact Hle|]. simpl. intros a Ha. lia.
    + exists e, (x :: earlier), later. repeat split.
      * rewrite Hsplit. reflexivity.
      * constructor; [lia|exact Hlt].
      * exact Hle.
Qed.

Lemma rootsToCounts_get t key :
  Map_get (rootsToCounts t) key =
  if Measures.rootCount t key =? 0 then None else Some (Measures.rootCount t key).
Proof. unfold rootsToCounts. rewrite foldl_countRoot_get. reflexivity. Qed.

Lemma rootsToCounts_NoDup t : NoDup (rootsToCounts t).*1.
Proof.
  unfold rootsToCounts. rewrite foldl_countRoot_keys.
  apply firstSeenFrom_NoDup. constructor.
Qed.

Lemma rootCount_nonneg t key : 0 <= Measures.rootCount t key.
Proof. unfold Measures.rootCount. lia. Qed.

Lemma rootCount_of_frame t f : f ∈ frames t -> 0 < Measures.rootCount t (id (root t f)).
Proof.
  intros Hin. unfold Measures.rootCount.
  assert (Hf : f ∈ filter (fun g => id (root t g) = id (root t f)) (frames t)).
  { apply list_elem_of_filter. split; [reflexivity|exact Hin]. }
  destruct (filter _ (frames t)); [inversion Hf|simpl; lia].
Qed.

Lemma rootsToCounts_elem t key v :
  (key, v) ∈ rootsToCounts t <-> v = Measures.rootCount t key /\ 0 < v.
Proof.
  split.
  - intros Hin. apply Map_get_elem in Hin; [|apply rootsToCounts_NoDup].
    rewrite rootsToCounts_get in Hin.
    destruct (Z.eqb_spec (Measures.rootCount t key) 0) as [|Hpos]; [discriminate|].
    injection Hin as <-. split; [reflexivity|].
    pose proof (rootCount_nonneg t key). lia.
  - intros [-> Hpos]. apply Map_get_Some_elem. rewrite rootsToCounts_get.
    destruct (Z.eqb_spec (Measures.rootCount t key) 0); [lia|reflexivity].
Qed.

Lemma rootsToCounts_nil t : rootsToCounts t = [] -> frames t = [].
Proof.
  intros Hnil. destruct (frames t) as [|f fs] eqn:Hframes; [reflexivity|].
  assert (Hin : f ∈ frames t) by (rewrite Hframes; apply list_elem_of_here).
  apply rootCount_of_frame in Hin.
  assert (Helem : (id (root t f), Measures.rootCount t (id (root t f))) ∈ rootsToCounts t).
  { apply rootsToCounts_elem. split; [reflexivity|exact Hin]. }
  rewrite Hnil in Helem. inversion Helem.
Qed.

(** C4: when none of the canonical names is a frame and the tree is not
    empty, [defaultFrameId] returns the root of a known frame such that no
    root has more frames, and among the roots with that many frames it is
    the one seen first when the frames are taken in insertion order: every
    frame before the first frame it is the root of has a root with strictly
    fewer frames.  [defaultFrameId] returns undefined exactly when the tree
    has no frames. *)
Theorem defaultFrameId_fallback t :
  (Forall (fun n => hasFrame t n = false) DEFAULT_FRAME_IDS ->
   frames t <> [] ->
   exists rootId before f after,
     defaultFrameId t = Some rootId /\
     frames t = before ++ f :: after /\
     id (root t f) = rootId /\
     (forall other, Measures.rootCount t other <= Measures.rootCount t rootId) /\
     Forall (fun g => Measures.rootCount t (id (root t g)) < Measures.rootCount t rootId)
       before) /\
  (defaultFrameId t = None <-> frames t = []).
Proof.
  split.
  - intros Hnone Hframes. unfold defaultFrameId.
    rewrite (preferredFrame_None _ _ Hnone). cbv zeta.
    assert (Hm : rootsToCounts t <> []).
    { intros Hnil. apply Hframes, rootsToCounts_nil, Hnil. }
    destruct (Array_sort_head _ Hm)
      as ([rootId v] & earlier & later & Hhead & Hsplit & Hlt & Hle).
    rewrite Hhead. simpl in Hlt, Hle |- *.
    assert (Hv : v = Measures.rootCount t rootId /\ 0 < v).
    { apply rootsToCounts_elem. rewrite Hsplit.
      apply elem_of_app. right. apply list_elem_of_here. }
    destruct Hv as [-> Hpos].
    assert (Hkeys : Measures.firstSeenFrom [] ((fun g => id (root t g)) <$> frames t)
                    = earlier.*1 ++ rootId :: later.*1).
    { assert (Hk : (rootsToCounts t).*1
                   = Measures.firstSeenFrom [] ((fun g => id (root t g)) <$> frames t))
        by apply (foldl_countRoot_keys t (frames t) []).
      rewrite <- Hk, Hsplit, fmap_app, fmap_cons. reflexivity. }
    destruct (firstSeenFrom_split _ _ _ _ Hkeys) as (roots1 & roots2 & Hroots & Hroots1).
    apply fmap_app_inv in Hroots as (before & rest & -> & Hrest & Hbefore).
    symmetry in Hrest. apply fmap_cons_inv in Hrest as (f & after & Hf & _ & ->).
    exists rootId, before, f, after. repeat split; try (symmetry; assumption); try assumption.
    + intros other. destruct (Z.eqb_spec (Measures.rootCount t other) 0) as [->|Hother]; [lia|].
      assert (Hin : (other, Measures.rootCount t other) ∈ rootsToCounts t).
      { apply rootsToCounts_elem. split; [reflexivity|].
        pose proof (rootCount_nonneg t other). lia. }
      rewrite Hsplit in Hin. apply elem_of_app in Hin as [Hin|Hin].
      * rewrite Forall_forall in Hlt. specialize (Hlt _ Hin). simpl in Hlt. lia.
      * apply elem_of_cons in Hin as [Heq|Hin].
        -- injection Heq as -> _. lia.
        -- rewrite Forall_forall in Hle. specialize (Hle _ Hin). simpl in Hle. lia.
    + apply Forall_fmap in Hroots1. eapply Forall_impl; [exact Hroots1|].
      simpl. intros g Hg.
      apply list_elem_of_fmap in Hg as ([key w] & Hkey & Hin). simpl in Hkey. subst key.
      assert (Hw : w = Measures.rootCount t (id (root t g)) /\ 0 < w).
      { apply rootsToCounts_elem. rewrite Hsplit. apply elem_of_app. left. exact Hin. }
      destruct Hw as [-> _].
      rewrite Forall_forall in Hlt. specialize (Hlt _ Hin). exact Hlt.
  - split.
    + unfold defaultFrameId.
      destruct (preferredFrame t DEFAULT_FRAME_IDS); [discriminate|]. cbv zeta.
      intros Hhead. apply rootsToCounts_nil.
      destruct (rootsToCounts t) as [|e m] eqn:Hm; [reflexivity|]. exfalso.
      destruct (Array_sort_head (e :: m)) as (e' & _ & _ & Hsome & _); [discriminate|].
      rewrite Hsome in Hhead. discriminate Hhead.
    + intros Hempty. unfold defaultFrameId. rewrite preferredFrame_None.
      * unfold rootsToCounts. rewrite Hempty. reflexivity.
      * apply Forall_forall. intros n _. unfold hasFrame, frame.
        rewrite Hempty. reflexivity.
Qed.

Lemma defaultFrameId_fallback_witness :
  defaultFrameId Scenario.sensorTree = Some "world" /\
  Measures.rootCount Scenario.sensorTree "world" = 3 /\
  exists rootId,
    defaultFrameId Scenario.sensorTree = Some rootId /\
    forall other,
      Measures.rootCount Scenario.sensorTree other
      <= Measures.rootCount Scenario.sensorTree rootId.
Proof.
  split; [reflexivity|]. split; [reflexivity|].
  assert (Hnone : Forall (fun n => hasFrame Scenario.sensorTree n = false) DEFAULT_FRAME_IDS).
  { unfold DEFAULT_FRAME_IDS. repeat constructor. }
  assert (Hframes : frames Scenario.sensorTree <> []).
  { vm_compute. discriminate. }
  destruct (proj1 (defaultFrameId_fallback Scenario.sensorTree) Hnone Hframes)
    as (rootId & _ & _ & _ & Hdefault & _ & _ & Hmost & _).
  exists rootId. split; [exact Hdefault|exact Hmost].
Defined.

End RootCounting.

(** ** The diagnostics at the end of a tick *)

Section EndOfTick.
Import Transforms LayerErrors SceneExtension.
Context `{Externals}.

Lemma startFrameBody_errors_other tree currentTime renderFrameId fixedFrameId st r path errorId :
  visible (settings r) = true ->
  path <> settingsPath r ->
  errorAt (errors (startFrameBody tree currentTime renderFrameId fixedFrameId st r).2)
    path errorId
  = errorAt (errors st) path errorId.
Proof.
  intros Hvisible Hne.
  rewrite (startFrameBody_visible _ _ _ _ _ _ Hvisible). cbv zeta. cbn [snd errors].
  unfold errorAt, add, remove.
  destruct (resolveRenderPose _ _ _ _ _ _).
  - apply lookup_delete_ne. intros [= Hpath _]. apply Hne. symmetry. exact Hpath.
  - apply lookup_insert_ne. intros [= Hpath _]. apply Hne. symmetry. exact Hpath.
Qed.

Lemma startFrame_errors_other tree currentTime renderFrameId fixedFrameId rs st path errorId :
  Forall (fun entry => visible (settings entry.2) = true /\ path <> settingsPath entry.2) rs ->
  errorAt (errors (startFrame tree currentTime renderFrameId fixedFrameId rs st).2)
    path errorId
  = errorAt (errors st) path errorId.
Proof.
  intros Hother. revert st.
  induction Hother as [|[key r] rs [Hvisible Hne] _ IH]; intros st; [reflexivity|].
  simpl.
  pose proof (startFrameBody_errors_other tree currentTime renderFrameId fixedFrameId
                st r path errorId Hvisible Hne) as Hbody.
  destruct (startFrameBody _ _ _ _ st r) as [r' st'].
  specialize (IH st').
  destruct (startFrame _ _ _ _ rs st') as [rs' st'']. simpl in *.
  rewrite IH. exact Hbody.
Qed.

(** X23: when every renderable processed later in the tick is visible and
    has another settings path, the diagnostic left by a visible renderable
    is still there when [startFrame] returns.  (A later hidden renderable
    has its path cleared, and which diagnostics that drops is left open.) *)
Lemma startFrame_end_of_tick_diagnostic
    tree currentTime renderFrameId fixedFrameId before key r after st :
  visible (settings r) = true ->
  Forall (fun entry =>
            visible (settings entry.2) = true /\ settingsPath r <> settingsPath entry.2)
    after ->
  errorAt
    (errors (startFrame tree currentTime renderFrameId fixedFrameId
               (before ++ (key, r) :: after) st).2)
    (settingsPath r) MISSING_TRANSFORM
  = match resolveRenderPose tree renderFrameId fixedFrameId (frameId r) currentTime
            (Measures.sourceTime currentTime r) with
    | None => Some (missingTransformMessage renderFrameId fixedFrameId (frameId r))
    | Some _ => None
    end.
Proof.
  intros Hvisible Hafter.
  rewrite startFrame_app. cbv zeta. cbn [snd].
  destruct (startFrame tree currentTime renderFrameId fixedFrameId before st)
    as [before' st'].
  cbn [startFrame snd].
  rewrite (startFrameBody_visible _ _ _ _ _ _ Hvisible). cbv zeta.
  match goal with |- context [startFrame _ _ _ _ after ?s] =>
    pose proof (startFrame_errors_other tree currentTime renderFrameId fixedFrameId
                  after s (settingsPath r) MISSING_TRANSFORM Hafter) as Hrest;
    destruct (startFrame tree currentTime renderFrameId fixedFrameId after s)
      as [after' st''] end.
  cbn [snd errors] in *. rewrite Hrest. unfold errorAt, add, remove.
  destruct (resolveRenderPose _ _ _ _ _ _).
  - apply lookup_delete_eq.
  - apply lookup_insert_eq.
Qed.

End EndOfTick.

(** ** Normalisation of fully populated messages *)

Section Populated.
Import Ros NormalizeMessages NormalizeRest.

Lemma normalizeTime_populated t : normalizeTime (Some (Populated.time t)) = t.
Proof. destruct t. reflexivity. Qed.

Lemma normalizeVector3_populated v : normalizeVector3 (Some (Populated.vector3 v)) = v.
Proof. destruct v. reflexivity. Qed.

Lemma normalizeQuaternion_populated q :
  normalizeQuaternion (Some (Populated.quaternion q)) = q.
Proof. destruct q. reflexivity. Qed.

Lemma normalizeColorRGBA_populated c : normalizeColorRGBA (Some (Populated.color c)) = c.
Proof. destruct c. reflexivity. Qed.

Lemma normalizePose_populated p : normalizePose (Some (Populated.pose p)) = p.
Proof.
  destruct p as [[x y z] [qx qy qz qw]]. reflexivity.
Qed.

Lemma normalizeHeader_populated h : normalizeHeader (Some (Populated.header h)) = h.
Proof.
  destruct h as [frame [sec nsec] seq]. reflexivity.
Qed.

Lemma normalizeTransformStamped_populated tf :
  normalizeTransformStamped (Some (Populated.transformStamped tf)) = tf.
Proof.
  destruct tf as [[frame [sec nsec] seq] child [[x y z] [qx qy qz qw]]].
  reflexivity.
Qed.

Lemma fmap_populated {A B} (embed : A -> B) (normalize : option B -> A) (l : list A) :
  (forall a, normalize (Some (embed a)) = a) ->
  normalize ∘ Some <$> (embed <$> l) = l.
Proof.
  intros Hround. induction l as [|a l IH]; [reflexivity|].
  simpl. rewrite Hround. f_equal. exact IH.
Qed.

(** X1: normalising a fully populated transform message changes nothing:
    no frame identifier, stamp, sequence number, translation or rotation of
    any of its transforms is altered, and none is dropped or added. *)
Theorem normalizeTFMessage_populated (m : TFMessage) :
  normalizeTFMessage (Some (Populated.tfMessage m)) = m.
Proof.
  destruct m as [transforms]. unfold normalizeTFMessage. simpl. f_equal.
  apply fmap_populated. exact normalizeTransformStamped_populated.
Qed.

(** X2: [normalizeMarker] changes nothing in a fully populated marker, so
    normalising twice gives what normalising once gives. *)
Theorem normalizeMarker_populated (m : Markers.Marker) :
  Markers.normalizeMarker (Markers.populated m) = m /\
  forall raw,
    Markers.normalizeMarker (Markers.populated (Markers.normalizeMarker raw))
    = Markers.normalizeMarker raw.
Proof.
  assert (Hround : forall m, Markers.normalizeMarker (Markers.populated m) = m).
  { clear m. intros m. destruct m. unfold Markers.normalizeMarker, Markers.populated.
    cbn -[normalizeHeader normalizePose normalizeVector3 normalizeColorRGBA
          normalizeTime normalizeVector3s normalizeColorRGBAs].
    rewrite normalizeHeader_populated, normalizePose_populated,
      normalizeVector3_populated, normalizeColorRGBA_populated,
      normalizeTime_populated.
    unfold normalizeVector3s, normalizeColorRGBAs.
    rewrite (fmap_populated _ _ _ normalizeVector3_populated).
    rewrite (fmap_populated _ _ _ normalizeColorRGBA_populated).
    reflexivity. }
  split; [apply Hround|]. intros raw. apply Hround.
Qed.

End Populated.

(** ** Matrices and byte arrays *)

Section Arrays.
Import NormalizeRest.

(** X3: [normalizeMatrix6] always returns 36 entries of which the first is
    a number, and applying it to its own result changes nothing. *)
Theorem normalizeMatrix6_shape (mat : option (list Element)) :
  length (normalizeMatrix6 mat) = 36%nat /\
  isNum (normalizeMatrix6 mat !! 0%nat) = true /\
  normalizeMatrix6 (Some (normalizeMatrix6 mat)) = normalizeMatrix6 mat.
Proof.
  assert (Hshape : length (normalizeMatrix6 mat) = 36%nat /\
                   isNum (normalizeMatrix6 mat !! 0%nat) = true).
  { unfold normalizeMatrix6. destruct mat as [l|]; [|split; reflexivity].
    destruct (Nat.eqb_spec (length l) 36) as [Hlen|Hlen]; simpl; [|split; reflexivity].
    destruct (isNum (l !! 0%nat)) eqn:Hfirst; simpl; [|split; reflexivity].
    split; assumption. }
  destruct Hshape as [Hlen Hfirst]. split; [exact Hlen|]. split; [exact Hfirst|].
  unfold normalizeMatrix6 at 1. rewrite Hlen, Hfirst. reflexivity.
Qed.

Lemma ToUint8_range v : 0 <= ToUint8 v < 256.
Proof. unfold ToUint8. destruct (truncate v); [apply Z.mod_pos_bound|]; lia. Qed.

Lemma ToInt8_range v : -128 <= ToInt8 v < 128.
Proof.
  unfold ToInt8. pose proof (ToUint8_range v).
  destruct (Z.leb_spec 128 (ToUint8 v)); lia.
Qed.

Lemma ToInt8_mod v : ToInt8 v mod 256 = ToUint8 v.
Proof.
  unfold ToInt8. pose proof (ToUint8_range v) as Hrange.
  destruct (Z.leb_spec 128 (ToUint8 v)).
  - replace (ToUint8 v - 256) with (ToUint8 v + (-1) * 256) by lia.
    rewrite Z.mod_add by lia. apply Z.mod_small. lia.
  - apply Z.mod_small. lia.
Qed.

Lemma signedByte_range b : 0 <= b < 256 -> -128 <= signedByte b < 128.
Proof. unfold signedByte. destruct (Z.leb_spec 128 b); lia. Qed.

Lemma signedByte_mod b : 0 <= b < 256 -> signedByte b mod 256 = b.
Proof.
  unfold signedByte. intros Hb. destruct (Z.leb_spec 128 b).
  - replace (b - 256) with (b + (-1) * 256) by lia.
    rewrite Z.mod_add by lia. apply Z.mod_small. lia.
  - apply Z.mod_small. lia.
Qed.

(** X4: for every input whose typed arrays hold what typed arrays can
    hold, [normalizeByteArray] returns elements between 0 and 255, as many
    as the input has when it is a plain array, and applied to its own
    result it returns it unchanged; an [Int8Array] is not converted but
    replaced by the empty array. *)
Theorem normalizeByteArray_bytes (u : Unknown) :
  wellFormed u ->
  Forall (fun x => 0 <= x < 256) (normalizeByteArray u) /\
  normalizeByteArray (aUint8Array (normalizeByteArray u)) = normalizeByteArray u /\
  (forall elements, u = anArray elements ->
     length (normalizeByteArray u) = length elements) /\
  (forall elements, u = anInt8Array elements -> normalizeByteArray u = []).
Proof.
  intros Hwf. split; [|split; [reflexivity|split]].
  - destruct u; simpl in *; try exact Hwf; try constructor.
    apply Forall_fmap, Forall_forall. intros v _. apply ToUint8_range.
  - intros elements ->. simpl. apply length_fmap.
  - intros elements ->. reflexivity.
Qed.

(** X5: for every such input [normalizeInt8Array] returns elements between
    -128 and 127; for a plain array or an [ArrayBuffer] each element is
    congruent modulo 256 to the element [normalizeByteArray] returns for
    the same input; a [Uint8Array] is not converted but replaced by the
    empty array. *)
Theorem normalizeInt8Array_bytes (u : Unknown) :
  wellFormed u ->
  Forall (fun x => -128 <= x < 128) (normalizeInt8Array u) /\
  ((exists elements, u = anArray elements) \/ (exists bytes, u = anArrayBuffer bytes) ->
     (fun x => x mod 256) <$> normalizeInt8Array u = normalizeByteArray u) /\
  (forall elements, u = aUint8Array elements -> normalizeInt8Array u = []).
Proof.
  intros Hwf. split; [|split].
  - destruct u; simpl in *; try exact Hwf; try constructor.
    + apply Forall_fmap, Forall_forall. intros v _. apply ToInt8_range.
    + apply Forall_fmap. eapply Forall_impl; [exact Hwf|].
      intros b Hb. apply signedByte_range. exact Hb.
  - intros [[elements ->]|[bytes ->]]; simpl in *.
    + rewrite <- list_fmap_compose. apply list_fmap_ext. intros _ v _. apply ToInt8_mod.
    + rewrite <- list_fmap_compose.
      induction Hwf as [|b bytes Hb _ IH]; [reflexivity|].
      simpl. rewrite signedByte_mod by exact Hb. f_equal. exact IH.
  - intros elements ->. reflexivity.
Qed.

End Arrays.

(** ** Frames of the renderer over time *)

Section RendererFrames.
Import Transforms Renderer.

Lemma hasFrame_ids t frameId : hasFrame t frameId = true <-> frameId ∈ id <$> frames t.
Proof.
  unfold hasFrame, frame. induction (frames t) as [|f fs IH]; cbn [find].
  - split; [discriminate|]. intros Hin. inversion Hin.
  - rewrite fmap_cons, elem_of_cons. destruct (String.eqb_spec (id f) frameId) as [Heq|Hne].
    + split; [intros _; left; symmetry; exact Heq|reflexivity].
    + rewrite IH. split; [intros Hin; right; exact Hin|].
      intros [Heq|Hin]; [exfalso; apply Hne; symmetry; exact Heq|exact Hin].
Qed.

Lemma replaceFrame_ids f' fs : id <$> replaceFrame f' fs = id <$> fs.
Proof.
  unfold replaceFrame. rewrite <- list_fmap_compose. apply list_fmap_ext.
  intros _ f _. simpl. destruct (String.eqb_spec (id f) (id f')) as [Heq|]; [|reflexivity].
  symmetry. exact Heq.
Qed.

Lemma hasFrame_getOrCreateFrame t frameId :
  hasFrame (getOrCreateFrame t frameId) frameId = true.
Proof. apply hasFrame_true. apply frame_getOrCreateFrame_same. Qed.

Lemma hasFrame_getOrCreateFrame_mono t other frameId :
  hasFrame t frameId = true -> hasFrame (getOrCreateFrame t other) frameId = true.
Proof.
  intros Hhas. apply hasFrame_true in Hhas as [f Hf].
  apply hasFrame_true. exists f. apply frame_getOrCreateFrame_keeps. exact Hf.
Qed.

Lemma hasFrame_addTransform_mono t childId parentFrameId time tf frameId :
  hasFrame t frameId = true ->
  hasFrame (addTransform t childId parentFrameId time tf).1 frameId = true.
Proof.
  intros Hhas.
  assert (Hcreated :
            hasFrame (getOrCreateFrame (getOrCreateFrame t childId) parentFrameId) frameId
            = true) by (do 2 apply hasFrame_getOrCreateFrame_mono; exact Hhas).
  unfold addTransform. destruct (malformed tf); [exact Hcreated|].
  destruct (String.eqb childId parentFrameId); [exact Hcreated|].
  destruct (frame _ childId) as [child|] eqn:Hchild; [|exact Hcreated].
  simpl. apply hasFrame_ids. simpl. rewrite replaceFrame_ids.
  apply hasFrame_ids. exact Hcreated.
Qed.

Lemma hasFrame_addTransformMessage_mono `{Externals} r tf frameId :
  hasFrame (transformTree r) frameId = true ->
  hasFrame (transformTree (addTransformMessage r tf)) frameId = true.
Proof.
  intros Hhas. rewrite transformTree_addTransformMessage.
  apply hasFrame_addTransform_mono. exact Hhas.
Qed.

Lemma transformTree_addCoordinateFrame `{Externals} r frameId :
  transformTree (addCoordinateFrame r frameId) = getOrCreateFrame (transformTree r) frameId.
Proof.
  unfold addCoordinateFrame, getOrCreateFrame.
  destruct (hasFrame (transformTree r) frameId); reflexivity.
Qed.

(** X6: [addCoordinateFrame] makes the frame known, keeps every frame that
    was known with its history, emits "transformTreeUpdated" exactly when
    the frame was not known before, and registering the same frame again
    changes nothing at all. *)
Theorem addCoordinateFrame_idempotent `{Externals} r frameId :
  let r' := addCoordinateFrame r frameId in
  hasFrame (transformTree r') frameId = true /\
  addCoordinateFrame r' frameId = r' /\
  emitted r' =
    emitted r ++ (if hasFrame (transformTree r) frameId then [] else [transformTreeUpdated]) /\
  forall other f,
    frame (transformTree r) other = Some f -> frame (transformTree r') other = Some f.
Proof.
  cbv zeta.
  assert (Hknown : hasFrame (transformTree (addCoordinateFrame r frameId)) frameId = true).
  { rewrite transformTree_addCoordinateFrame. apply hasFrame_getOrCreateFrame. }
  split; [exact Hknown|]. split; [|split].
  - unfold addCoordinateFrame at 1. rewrite Hknown. reflexivity.
  - unfold addCoordinateFrame. destruct (hasFrame (transformTree r) frameId); simpl.
    + rewrite app_nil_r. reflexivity.
    + reflexivity.
  - intros other f Hf. rewrite transformTree_addCoordinateFrame.
    apply frame_getOrCreateFrame_keeps. exact Hf.
Qed.

(** *** _updateFrames *)

Lemma fixedFrameId_updateFixedFrame r renderFrame :
  fixedFrameId (updateFixedFrame r renderFrame) =
  (fun f => id (root (transformTree r) f)) <$> frame (transformTree r) renderFrame.
Proof.
  unfold updateFixedFrame. destruct (frame (transformTree r) renderFrame) as [f|]; simpl.
  - destruct (decide (fixedFrameId r = Some (id (root (transformTree r) f)))) as [Heq|Hne].
    + rewrite bool_decide_eq_true_2 by exact Heq. exact Heq.
    + rewrite bool_decide_eq_false_2 by exact Hne.
      destruct (fixedFrameId r); reflexivity.
  - reflexivity.
Qed.

Lemma updateFixedFrame_fixpoint r renderFrame :
  fixedFrameId r
  = (fun f => id (root (transformTree r) f)) <$> frame (transformTree r) renderFrame ->
  updateFixedFrame r renderFrame = r.
Proof.
  intros Hfixed. unfold updateFixedFrame.
  destruct (frame (transformTree r) renderFrame) as [f|]; simpl in Hfixed.
  - rewrite bool_decide_eq_true_2 by exact Hfixed. reflexivity.
  - destruct r. simpl in *. subst. reflexivity.
Qed.

Lemma updateFixedFrame_idempotent r renderFrame :
  updateFixedFrame (updateFixedFrame r renderFrame) renderFrame
  = updateFixedFrame r renderFrame.
Proof.
  apply updateFixedFrame_fixpoint.
  rewrite fixedFrameId_updateFixedFrame, transformTree_updateFixedFrame. reflexivity.
Qed.

Lemma updateFrames_set r renderFrame :
  renderFrameId r = Some renderFrame -> _updateFrames r = updateFixedFrame r renderFrame.
Proof. intros Hrender. unfold _updateFrames. rewrite Hrender. reflexivity. Qed.

Lemma updateFrames_unset_chosen r chosen :
  renderFrameId r = None ->
  defaultFrameId (transformTree r) = Some chosen ->
  _updateFrames r =
  updateFixedFrame (debug (setRenderFrameId r (Some chosen)) (SettingRenderFrame chosen))
    chosen.
Proof.
  intros Hrender Hdefault. unfold _updateFrames. rewrite Hrender.
  cbn [setRenderFrameId renderFrameId]. rewrite Hdefault. reflexivity.
Qed.

Lemma updateFrames_unset_none r :
  renderFrameId r = None ->
  defaultFrameId (transformTree r) = None ->
  _updateFrames r = setFixedFrameId (setRenderFrameId r None) None.
Proof.
  intros Hrender Hdefault. unfold _updateFrames. rewrite Hrender.
  cbn [setRenderFrameId renderFrameId]. rewrite Hdefault. reflexivity.
Qed.

(** X7: [_updateFrames] is idempotent: a second call on an unchanged tree
    changes neither the render frame, nor the fixed frame, nor the log. *)
Theorem updateFrames_idempotent r : _updateFrames (_updateFrames r) = _updateFrames r.
Proof.
  destruct (renderFrameId r) as [renderFrame|] eqn:Hrender.
  - rewrite (updateFrames_set r renderFrame Hrender).
    rewrite (updateFrames_set _ renderFrame).
    + apply updateFixedFrame_idempotent.
    + rewrite renderFrameId_updateFixedFrame. exact Hrender.
  - destruct (defaultFrameId (transformTree r)) as [chosen|] eqn:Hdefault.
    + rewrite (updateFrames_unset_chosen r chosen Hrender Hdefault).
      rewrite (updateFrames_set _ chosen).
      * apply updateFixedFrame_idempotent.
      * rewrite renderFrameId_updateFixedFrame. reflexivity.
    + rewrite (updateFrames_unset_none r Hrender Hdefault).
      rewrite updateFrames_unset_none; [reflexivity|reflexivity|exact Hdefault].
Qed.

(** X8: after [_updateFrames] the fixed frame is the root of the render
    frame: it is defined exactly when the render frame is defined and names
    a frame of the tree, and then it is the identifier of that frame's
    root. *)
Theorem updateFrames_fixed_is_root r :
  let r' := _updateFrames r in
  fixedFrameId r' =
    (renderFrameId r' ≫= frame (transformTree r'))
    ≫= fun f => Some (id (root (transformTree r') f)).
Proof.
  cbv zeta. unfold _updateFrames.
  destruct (renderFrameId r) as [renderFrame|] eqn:Hrender.
  - rewrite fixedFrameId_updateFixedFrame, renderFrameId_updateFixedFrame,
      transformTree_updateFixedFrame, Hrender. simpl.
    destruct (frame (transformTree r) renderFrame); reflexivity.
  - cbn [setRenderFrameId renderFrameId].
    destruct (defaultFrameId (transformTree r)) as [chosen|]; [|reflexivity].
    rewrite fixedFrameId_updateFixedFrame, renderFrameId_updateFixedFrame,
      transformTree_updateFixedFrame. simpl.
    destruct (frame (transformTree r) chosen); reflexivity.
Qed.

(** *** The frame chosen by default is a frame of the tree *)

Lemma frame_of_elem t f : f ∈ frames t -> is_Some (frame t (id f)).
Proof.
  intros Hin. apply hasFrame_true, hasFrame_ids.
  apply list_elem_of_fmap. exists f. split; [reflexivity|exact Hin].
Qed.

Lemma rootFrom_known t fuel f :
  is_Some (frame t (id f)) -> is_Some (frame t (id (rootFrom t fuel f))).
Proof.
  revert f. induction fuel as [|fuel IH]; intros f Hf; [exact Hf|].
  simpl. destruct (latestParent f ≫= frame t) as [parent|] eqn:Hparent; [|exact Hf].
  apply IH. destruct (latestParent f) as [parentName|]; [|discriminate].
  simpl in Hparent. rewrite (frame_Some_id _ _ _ Hparent), Hparent. eexists; reflexivity.
Qed.

Lemma preferredFrame_known t ids chosen :
  preferredFrame t ids = Some chosen -> is_Some (frame t chosen).
Proof.
  induction ids as [|frameId rest IH]; [discriminate|].
  simpl. destruct (frame t frameId) as [f|] eqn:Hf; [|exact IH].
  intros [= <-]. rewrite (frame_Some_id _ _ _ Hf), Hf. eexists; reflexivity.
Qed.

Lemma defaultFrameId_known t chosen :
  defaultFrameId t = Some chosen -> is_Some (frame t chosen).
Proof.
  unfold defaultFrameId.
  destruct (preferredFrame t DEFAULT_FRAME_IDS) as [preferred|] eqn:Hpreferred.
  - intros [= <-]. exact (preferredFrame_known _ _ _ Hpreferred).
  - cbv zeta. intros Hhead.
    destruct (rootsToCounts t) as [|e m] eqn:Hm; [discriminate Hhead|].
    destruct (Array_sort_head (e :: m)) as ([key v] & earlier & later & Hsome & Hsplit & _);
      [discriminate|].
    rewrite Hsome in Hhead. injection Hhead as <-.
    assert (Hin : (key, v) ∈ rootsToCounts t).
    { rewrite Hm, Hsplit. apply elem_of_app. right. apply list_elem_of_here. }
    apply rootsToCounts_elem in Hin as [-> Hpos].
    unfold Measures.rootCount in Hpos.
    destruct (filter (fun f => id (root t f) = key) (frames t)) as [|f fs] eqn:Hfilter;
      [simpl in Hpos; lia|].
    assert (Hf : f ∈ filter (fun f => id (root t f) = key) (frames t))
      by (rewrite Hfilter; apply list_elem_of_here).
    apply list_elem_of_filter in Hf as [<- Hf].
    apply rootFrom_known, frame_of_elem, Hf.
Qed.

Lemma defaultFrameId_nonempty t : frames t <> [] -> is_Some (defaultFrameId t).
Proof.
  intros Hframes. unfold defaultFrameId.
  destruct (preferredFrame t DEFAULT_FRAME_IDS); [eexists; reflexivity|]. cbv zeta.
  destruct (Array_sort_head (rootsToCounts t)) as (e & _ & _ & -> & _).
  - intros Hnil. apply Hframes, rootsToCounts_nil, Hnil.
  - eexists; reflexivity.
Qed.

(** X9: on a tick with no render frame set, [_updateFrames] on a tree with
    at least one frame sets both frames: the render frame is the default
    frame, it is a frame of the tree, and the fixed frame is its root; on
    an empty tree both stay undefined. *)
Theorem updateFrames_first_tick r :
  renderFrameId r = None ->
  let r' := _updateFrames r in
  match frames (transformTree r) with
  | [] => renderFrameId r' = None /\ fixedFrameId r' = None
  | _ :: _ =>
      exists renderFrame f,
        defaultFrameId (transformTree r) = Some renderFrame /\
        renderFrameId r' = Some renderFrame /\
        frame (transformTree r) renderFrame = Some f /\
        fixedFrameId r' = Some (id (root (transformTree r) f))
  end.
Proof.
  intros Hrender. cbv zeta.
  destruct (frames (transformTree r)) as [|f0 fs] eqn:Hframes.
  - assert (Hdefault : defaultFrameId (transformTree r) = None).
    { destruct (defaultFrameId (transformTree r)) as [chosen|] eqn:Hdefault; [|reflexivity].
      apply defaultFrameId_known in Hdefault as [f Hf].
      apply frame_Some_elem in Hf. rewrite Hframes in Hf. inversion Hf. }
    unfold _updateFrames. rewrite Hrender. cbn [setRenderFrameId renderFrameId].
    rewrite Hdefault. split; reflexivity.
  - destruct (defaultFrameId_nonempty (transformTree r)) as [chosen Hdefault].
    { rewrite Hframes. discriminate. }
    destruct (defaultFrameId_known _ _ Hdefault) as [f Hf].
    exists chosen, f. split; [exact Hdefault|].
    unfold _updateFrames. rewrite Hrender. cbn [setRenderFrameId renderFrameId].
    rewrite Hdefault. split; [|split].
    + rewrite renderFrameId_updateFixedFrame. reflexivity.
    + exact Hf.
    + rewrite fixedFrameId_updateFixedFrame. simpl. rewrite Hf. reflexivity.
Qed.

End RendererFrames.

(** ** Message dispatch *)

Section DispatchProperties.
Import Transforms Renderer Dispatch.
Context `{Externals} {Handler : Type} `{EqDecision Handler}.

Lemma hasFrame_foldl_addTransformMessage_mono tfs r frameId :
  hasFrame (transformTree r) frameId = true ->
  hasFrame (transformTree (foldl addTransformMessage r tfs)) frameId = true.
Proof.
  revert r. induction tfs as [|tf tfs IH]; intros r Hhas; [exact Hhas|].
  simpl. apply IH, hasFrame_addTransformMessage_mono, Hhas.
Qed.

(** The second step of [addMessageEvent] keeps the frames it finds. *)
Lemma addMessageEvent_mono TF_DATATYPES TRANSFORM_STAMPED_DATATYPES
    (datatypeHandlers : gmap string (list Handler)) r message datatype frameId :
  hasFrame (transformTree
              match Dispatch.header message with
              | Some header =>
                  addCoordinateFrame r (Ros.frame_id_opt header ?? EmptyString)
              | None => r
              end) frameId = true ->
  hasFrame (transformTree
              (addMessageEvent TF_DATATYPES TRANSFORM_STAMPED_DATATYPES datatypeHandlers
                 r message datatype).1) frameId = true.
Proof.
  intros Hhas. unfold addMessageEvent. cbn [fst].
  destruct (bool_decide (datatype ∈ TF_DATATYPES)).
  - apply hasFrame_foldl_addTransformMessage_mono, Hhas.
  - destruct (bool_decide (datatype ∈ TRANSFORM_STAMPED_DATATYPES)); [|exact Hhas].
    apply hasFrame_addTransformMessage_mono, Hhas.
Qed.

(** X10: [addMessageEvent] never removes a frame: whatever the message and
    its datatype, every frame known before is known afterwards. *)
Theorem addMessageEvent_keeps_frames TF_DATATYPES TRANSFORM_STAMPED_DATATYPES
    (datatypeHandlers : gmap string (list Handler)) r message datatype frameId :
  hasFrame (transformTree r) frameId = true ->
  hasFrame (transformTree
              (addMessageEvent TF_DATATYPES TRANSFORM_STAMPED_DATATYPES datatypeHandlers
                 r message datatype).1) frameId = true.
Proof.
  intros Hhas. apply addMessageEvent_mono.
  destruct (Dispatch.header message); [|exact Hhas].
  rewrite transformTree_addCoordinateFrame.
  apply hasFrame_getOrCreateFrame_mono, Hhas.
Qed.

(** X11: after [addMessageEvent] has handled a message that has a header,
    the frame named by the header is known, whatever the datatype; when the
    header has no [frame_id], that is the frame with the empty name. *)
Theorem addMessageEvent_header_frame TF_DATATYPES TRANSFORM_STAMPED_DATATYPES
    (datatypeHandlers : gmap string (list Handler)) r message datatype header :
  Dispatch.header message = Some header ->
  hasFrame (transformTree
              (addMessageEvent TF_DATATYPES TRANSFORM_STAMPED_DATATYPES datatypeHandlers
                 r message datatype).1)
    (Ros.frame_id_opt header ?? EmptyString) = true.
Proof.
  intros Hheader. apply addMessageEvent_mono. rewrite Hheader.
  rewrite transformTree_addCoordinateFrame. apply hasFrame_getOrCreateFrame.
Qed.

(** *** Subscriptions of handlers *)

Lemma subscribe_lookup handler (m : gmap string (list Handler)) datatype other :
  subscribe handler m datatype !! other =
  if decide (datatype = other)
  then Some (let handlers := (m !! datatype) ?? [] in
             if bool_decide (handler ∈ handlers) then handlers else handlers ++ [handler])
  else m !! other.
Proof.
  unfold subscribe. destruct (m !! datatype) as [handlers|] eqn:Hlookup; cbv zeta; simpl.
  - destruct (decide (handler ∈ handlers)) as [Hin|Hout].
    + rewrite (bool_decide_eq_true_2 _ Hin). simpl.
      destruct (decide (datatype = other)) as [<-|]; [exact Hlookup|reflexivity].
    + rewrite (bool_decide_eq_false_2 _ Hout). simpl. apply lookup_insert.
  - rewrite lookup_insert. destruct (decide (datatype = other)) as [|Hne]; [reflexivity|].
    apply lookup_insert_ne. exact Hne.
Qed.

Lemma addDatatypeSubscriptions_lookup (m : gmap string (list Handler)) datatypes handler other :
  addDatatypeSubscriptions m datatypes handler !! other =
  if bool_decide (other ∈ datatypes)
  then Some (let handlers := (m !! other) ?? [] in
             if bool_decide (handler ∈ handlers) then handlers else handlers ++ [handler])
  else m !! other.
Proof.
  unfold addDatatypeSubscriptions. revert m.
  induction datatypes as [|datatype rest IH]; intros m; [reflexivity|].
  simpl foldl. rewrite IH, subscribe_lookup. cbv zeta.
  destruct (decide (other ∈ rest)) as [Hin|Hout].
  - rewrite (bool_decide_eq_true_2 (other ∈ rest) Hin).
    rewrite (bool_decide_eq_true_2 (other ∈ datatype :: rest))
      by (apply list_elem_of_further; exact Hin).
    destruct (decide (datatype = other)) as [->|]; [|reflexivity]. simpl.
    destruct (decide (handler ∈ (m !! other) ?? [])) as [Hh|Hh].
    + rewrite !(bool_decide_eq_true_2 _ Hh). reflexivity.
    + rewrite (bool_decide_eq_false_2 _ Hh).
      rewrite bool_decide_eq_true_2; [reflexivity|].
      apply elem_of_app. right. apply list_elem_of_here.
  - rewrite (bool_decide_eq_false_2 (other ∈ rest) Hout).
    destruct (decide (datatype = other)) as [->|Hne].
    + rewrite (bool_decide_eq_true_2 (other ∈ other :: rest)) by apply list_elem_of_here.
      reflexivity.
    + rewrite (bool_decide_eq_false_2 (other ∈ datatype :: rest)); [reflexivity|].
      intros Hin. apply elem_of_cons in Hin as [->|Hin]; [apply Hne; reflexivity|].
      exact (Hout Hin).
Qed.

(** X12: [addDatatypeSubscriptions] keeps the handler lists free of
    duplicates; afterwards the handler is registered for every datatype
    given, and the handlers registered before are still there, in the same
    order and before the new one. *)
Theorem addDatatypeSubscriptions_registers (m : gmap string (list Handler)) datatypes handler :
  (forall datatype handlers, m !! datatype = Some handlers -> NoDup handlers) ->
  let m' := addDatatypeSubscriptions m datatypes handler in
  (forall datatype handlers, m' !! datatype = Some handlers -> NoDup handlers) /\
  (forall datatype, datatype ∈ datatypes ->
     exists handlers, m' !! datatype = Some handlers /\ handler ∈ handlers) /\
  (forall datatype handlers, m !! datatype = Some handlers ->
     exists handlers', m' !! datatype = Some handlers' /\ handlers `prefix_of` handlers').
Proof.
  intros Hnodup. cbv zeta. split; [|split].
  - intros datatype handlers. rewrite addDatatypeSubscriptions_lookup. cbv zeta.
    destruct (bool_decide (datatype ∈ datatypes)); [|apply Hnodup].
    intros [= <-].
    assert (Hold : NoDup ((m !! datatype) ?? [])).
    { destruct (m !! datatype) as [old|] eqn:Hold; [exact (Hnodup _ _ Hold)|constructor]. }
    destruct (decide (handler ∈ (m !! datatype) ?? [])) as [Hin|Hout].
    + rewrite (bool_decide_eq_true_2 _ Hin). exact Hold.
    + rewrite (bool_decide_eq_false_2 _ Hout). apply NoDup_app. split; [exact Hold|].
      split; [|apply NoDup_singleton].
      intros x Hx Hx'. apply list_elem_of_singleton in Hx' as ->. exact (Hout Hx).
  - intros datatype Hin. rewrite addDatatypeSubscriptions_lookup.
    rewrite (bool_decide_eq_true_2 _ Hin). eexists. split; [reflexivity|]. cbv zeta.
    destruct (decide (handler ∈ (m !! datatype) ?? [])) as [Hh|Hh].
    + rewrite (bool_decide_eq_true_2 _ Hh). exact Hh.
    + rewrite (bool_decide_eq_false_2 _ Hh). apply elem_of_app. right. apply list_elem_of_here.
  - intros datatype handlers Hold. rewrite addDatatypeSubscriptions_lookup, Hold. cbv zeta.
    destruct (bool_decide (datatype ∈ datatypes)); [|exists handlers; split; reflexivity].
    eexists. split; [reflexivity|]. simpl.
    destruct (bool_decide (handler ∈ handlers)); [reflexivity|].
    apply prefix_app_r. reflexivity.
Qed.

(** X13: subscribing the same handler to the same datatypes a second time
    changes nothing. *)
Theorem addDatatypeSubscriptions_idempotent (m : gmap string (list Handler)) datatypes handler :
  addDatatypeSubscriptions (addDatatypeSubscriptions m datatypes handler) datatypes handler
  = addDatatypeSubscriptions m datatypes handler.
Proof.
  apply map_eq. intros datatype. rewrite !addDatatypeSubscriptions_lookup. cbv zeta.
  destruct (bool_decide (datatype ∈ datatypes)); [|reflexivity]. simpl. f_equal.
  destruct (decide (handler ∈ (m !! datatype) ?? [])) as [Hh|Hh].
  - rewrite !(bool_decide_eq_true_2 _ Hh). reflexivity.
  - rewrite (bool_decide_eq_false_2 _ Hh).
    rewrite bool_decide_eq_true_2; [reflexivity|].
    apply elem_of_app. right. apply list_elem_of_here.
Qed.

(** X14: a handler subscribed to a datatype is called exactly once for a
    message of that datatype, however often it was subscribed before. *)
Theorem addMessageEvent_calls_handler_once TF_DATATYPES TRANSFORM_STAMPED_DATATYPES
    (m : gmap string (list Handler)) datatypes handler r message datatype :
  (forall datatype handlers, m !! datatype = Some handlers -> NoDup handlers) ->
  datatype ∈ datatypes ->
  exists before after,
    (addMessageEvent TF_DATATYPES TRANSFORM_STAMPED_DATATYPES
       (addDatatypeSubscriptions m datatypes handler) r message datatype).2
    = before ++ handler :: after /\
    (handler ∉ before) /\ (handler ∉ after).
Proof.
  intros Hnodup Hin. unfold addMessageEvent. cbn [snd].
  rewrite addDatatypeSubscriptions_lookup, (bool_decide_eq_true_2 _ Hin). cbv zeta. simpl.
  assert (Hold : NoDup ((m !! datatype) ?? [])).
  { destruct (m !! datatype) as [old|] eqn:Hold; [exact (Hnodup _ _ Hold)|constructor]. }
  destruct (decide (handler ∈ (m !! datatype) ?? [])) as [Hh|Hh].
  - rewrite (bool_decide_eq_true_2 _ Hh).
    destruct (list_elem_of_split _ _ Hh) as (before & after & Hsplit).
    exists before, after. split; [exact Hsplit|].
    rewrite Hsplit in Hold. apply NoDup_app in Hold as (_ & Hdisjoint & Hafter).
    apply NoDup_cons in Hafter as [Hafter _]. split; [|exact Hafter].
    intros Hbefore. apply (Hdisjoint _ Hbefore). apply list_elem_of_here.
  - rewrite (bool_decide_eq_false_2 _ Hh).
    exists ((m !! datatype) ?? []), []. split; [reflexivity|].
    split; [exact Hh|apply not_elem_of_nil].
Qed.

(** *** Topics to subscribe to *)

Lemma subscribeTopic_elem TF_DATATYPES TRANSFORM_STAMPED_DATATYPES
    (datatypeHandlers : gmap string (list Handler)) configTopics subs topic n :
  n ∈ subscribeTopic TF_DATATYPES TRANSFORM_STAMPED_DATATYPES datatypeHandlers
        configTopics subs topic
  <-> n ∈ subs \/
      (name topic = n /\
       (bool_decide (datatype topic ∈ TF_DATATYPES)
        || bool_decide (datatype topic ∈ TRANSFORM_STAMPED_DATATYPES)
        || bool_decide (is_Some (datatypeHandlers !! datatype topic))
           && negb (bool_decide ((configTopics !! name topic) ?? None = Some false)))
       = true).
Proof.
  unfold subscribeTopic.
  destruct (bool_decide (datatype topic ∈ TF_DATATYPES)
            || bool_decide (datatype topic ∈ TRANSFORM_STAMPED_DATATYPES)); simpl.
  - rewrite elem_of_union, elem_of_singleton. intuition congruence.
  - destruct (bool_decide (is_Some (datatypeHandlers !! datatype topic))); simpl.
    + destruct (bool_decide ((configTopics !! name topic) ?? None = Some false)); simpl.
      * intuition congruence.
      * rewrite elem_of_union, elem_of_singleton. intuition congruence.
    + intuition congruence.
Qed.

(** X15: a topic name is among the subscriptions exactly when some topic
    of that name carries transforms, or has a datatype with a registered
    handler and is not switched off ([visible] is not [false]) in the
    configuration.  A transform topic is subscribed even when it is
    switched off. *)
Theorem subscriptions_membership TF_DATATYPES TRANSFORM_STAMPED_DATATYPES
    (datatypeHandlers : gmap string (list Handler)) configTopics topics n :
  exists subs,
    subscriptions TF_DATATYPES TRANSFORM_STAMPED_DATATYPES datatypeHandlers configTopics
      (Some topics) = Some subs /\
    (n ∈ subs <->
     exists topic,
       topic ∈ topics /\ name topic = n /\
       (bool_decide (datatype topic ∈ TF_DATATYPES)
        || bool_decide (datatype topic ∈ TRANSFORM_STAMPED_DATATYPES)
        || bool_decide (is_Some (datatypeHandlers !! datatype topic))
           && negb (bool_decide ((configTopics !! name topic) ?? None = Some false)))
       = true).
Proof.
  eexists. split; [reflexivity|].
  assert (Hgen : forall acc,
             n ∈ foldl (subscribeTopic TF_DATATYPES TRANSFORM_STAMPED_DATATYPES
                          datatypeHandlers configTopics) acc topics
             <-> n ∈ acc \/
                 exists topic,
                   topic ∈ topics /\ name topic = n /\
                   (bool_decide (datatype topic ∈ TF_DATATYPES)
                    || bool_decide (datatype topic ∈ TRANSFORM_STAMPED_DATATYPES)
                    || bool_decide (is_Some (datatypeHandlers !! datatype topic))
                       && negb (bool_decide
                                  ((configTopics !! name topic) ?? None = Some false)))
                   = true).
  { induction topics as [|topic rest IH]; intros acc; simpl.
    - split; [auto|]. intros [Hacc|(topic & Hin & _)]; [exact Hacc|inversion Hin].
    - rewrite IH, subscribeTopic_elem. split.
      + intros [[Hacc|[Hname Hwanted]]|(topic' & Hin & Hrest)].
        * left. exact Hacc.
        * right. exists topic. split; [apply list_elem_of_here|]. split; assumption.
        * right. exists topic'. split; [apply list_elem_of_further; exact Hin|exact Hrest].
      + intros [Hacc|(topic' & Hin & Hname & Hwanted)].
        * left. left. exact Hacc.
        * apply elem_of_cons in Hin as [->|Hin].
          -- left. right. split; assumption.
          -- right. exists topic'. split; [exact Hin|]. split; assumption. }
  rewrite Hgen. split.
  - intros [Hempty|Hsome]; [|exact Hsome]. apply elem_of_empty in Hempty. contradiction.
  - intros Hsome. right. exact Hsome.
Qed.

End DispatchProperties.

(** ** Visible and hidden renderables *)

Section Visibility.
Import Transforms LayerErrors SceneExtension.
Context `{Externals}.

(** X16: in a tick [startFrame] calls [updatePose] once for each visible
    renderable, in the order of the renderables, and never for a hidden
    one: the calls made are those for the visible renderables, each
    visible renderable is left as its call of [updatePose] returns it, and
    each hidden one is left with its visible flag cleared and its pose
    untouched. *)
Theorem startFrame_calls_visible tree currentTime renderFrameId fixedFrameId rs st :
  let result := startFrame tree currentTime renderFrameId fixedFrameId rs st in
  let srcTime r := if frameLocked (settings r) ?? true then currentTime else messageTime r in
  calls result.2 =
    calls st ++
    ((fun entry =>
        mkUpdatePoseCall (setObjectVisible entry.2 true) renderFrameId fixedFrameId
          (frameId entry.2) currentTime (srcTime entry.2))
       <$> filter (fun entry => visible (settings entry.2) = true) rs) /\
  result.1 =
    (fun entry =>
       (entry.1,
        if visible (settings entry.2)
        then (updatePose (setObjectVisible entry.2 true) tree renderFrameId fixedFrameId
                (frameId entry.2) currentTime (srcTime entry.2)).1
        else setObjectVisible entry.2 false))
      <$> rs.
Proof.
  cbv zeta. revert st. induction rs as [|[key r] rs IH]; intros st.
  - simpl. rewrite app_nil_r. split; reflexivity.
  - simpl startFrame. rewrite fmap_cons, filter_cons. cbn [fst snd].
    destruct (visible (settings r)) eqn:Hvisible.
    + rewrite (startFrameBody_visible _ _ _ _ _ _ Hvisible). cbv zeta.
      rewrite sourceTime_nullish.
      match goal with |- context [startFrame _ _ _ _ rs ?s] =>
        destruct (IH s) as [Hcalls Hresult];
        destruct (startFrame tree currentTime renderFrameId fixedFrameId rs s)
          as [rs' st'] end.
      cbn [fst snd calls] in *. split.
      * rewrite Hcalls, <- app_assoc. rewrite decide_True by reflexivity.
        rewrite fmap_cons. reflexivity.
      * rewrite Hresult. unfold updatePose.
        destruct (resolveRenderPose _ _ _ _ _ _); reflexivity.
    + rewrite (startFrameBody_hidden _ _ _ _ _ _ Hvisible).
      match goal with |- context [startFrame _ _ _ _ rs ?s] =>
        destruct (IH s) as [Hcalls Hresult];
        destruct (startFrame tree currentTime renderFrameId fixedFrameId rs s)
          as [rs' st'] end.
      cbn [fst snd calls] in *. split.
      * rewrite decide_False by discriminate. exact Hcalls.
      * rewrite Hresult. reflexivity.
Qed.


End Visibility.

(** ** The settings tree of the custom layers *)

Section SettingsTreeProperties.
Import SettingsTree.

(** X18: the "layers" root has a child exactly for the layers whose type
    has a settings node provider; a layer without one is left out. *)
Theorem buildSettingsTree_children errorAtPath settingsNodeProviders coordinateFrames uuid
    (layers : gmap string CustomLayerSettings) layerId :
  is_Some (children (buildSettingsTree errorAtPath settingsNodeProviders coordinateFrames
                       uuid layers) !! layerId)
  <-> exists layer,
        layers !! layerId = Some layer /\ is_Some (settingsNodeProviders (type layer)).
Proof.
  unfold buildSettingsTree. cbn [children]. rewrite map_lookup_imap.
  destruct (layers !! layerId) as [layer|]; simpl.
  - unfold layerChild, buildLayerNode.
    destruct (settingsNodeProviders (type layer)) as [provider|] eqn:Hprovider.
    + split; [|intros _; eexists; reflexivity].
      intros _. exists layer. split; [reflexivity|]. rewrite Hprovider. eexists; reflexivity.
    + split; [intros [? Hnone]; discriminate Hnone|].
      intros (layer' & [= <-] & Hsome). rewrite Hprovider in Hsome.
      destruct Hsome as [? Hsome]. discriminate Hsome.
  - split; [intros [? Hnone]; discriminate Hnone|].
    intros (layer & Hnone & _). discriminate Hnone.
Qed.

End SettingsTreeProperties.

(** ** Grid fields *)

Section GridFields.
Import FoxgloveGrid.
Context {FieldReader : Type}.
Context (getReader : PackedElementField -> Z -> option NumericType -> option FieldReader).

Lemma fieldLoop_no_color_field stride colorMode fields colorReader minBytesPerCell :
  exists minBytes,
    fieldLoop getReader stride colorMode None fields colorReader minBytesPerCell
    = inr (colorReader, minBytes) /\
    (minBytesPerCell <= stride ->
     Forall (fun field => offset field + numericTypeWidth (type field) <= stride) fields ->
     minBytes <= stride).
Proof.
  revert minBytesPerCell. induction fields as [|field rest IH]; intros minBytesPerCell.
  - exists minBytesPerCell. split; [reflexivity|]. intros Hmin _. exact Hmin.
  - simpl. destruct (IH (Z.max minBytesPerCell (offset field + numericTypeWidth (type field))))
      as (minBytes & Hloop & Hbound).
    exists minBytes. split; [exact Hloop|].
    intros Hmin Hfits. apply Forall_cons in Hfits as [Hfield Hrest].
    apply Hbound; [lia|exact Hrest].
Qed.

(** X21: when no colour field is selected and every field lies within a
    cell, [_getFieldReader] reports no error and returns the reader that
    reads 0, without asking for any field reader. *)
Theorem getFieldReader_no_color_field cell_stride fields colorMode :
  0 <= cell_stride ->
  Forall (fun field => offset field + numericTypeWidth (type field) <= cell_stride) fields ->
  _getFieldReader getReader cell_stride fields colorMode None = inr zeroReader.
Proof.
  intros Hstride Hfits. unfold _getFieldReader.
  destruct (fieldLoop_no_color_field cell_stride colorMode fields None 0)
    as (minBytes & -> & Hbound).
  specialize (Hbound Hstride Hfits).
  destruct (Z.ltb_spec cell_stride minBytes); [lia|reflexivity].
Qed.

End GridFields.

Section GridRanges.
Import FoxgloveGrid.

(** X22: when the colour mode needs a value range and the settings give
    neither bound, [minMaxColorValues] writes the bounds of the table for
    the numeric type.  For every type but INT16 and INT32 the lower bound
    is below the upper bound; for INT16 and INT32 the upper bound of the
    table is the lower bound minus one (-32769 for INT16), so it is below
    the lower bound. *)
Theorem minMaxColorValues_default_range NEEDS_MIN_MAX output colorMode numericType :
  colorMode ∈ NEEDS_MIN_MAX ->
  let range := minMaxColorValues NEEDS_MIN_MAX output colorMode None None numericType in
  range = NumericTypeMinMaxValueMap numericType /\
  match numericType with
  | INT16 | INT32 =>
      range.2 = (range.1 - 1)%float /\ (range.2 <? range.1)%float = true
  | _ => (range.1 <? range.2)%float = true
  end /\
  NumericTypeMinMaxValueMap INT16 = ((-32768)%float, (-32769)%float).
Proof.
  intros Hneeds. cbv zeta. unfold minMaxColorValues.
  rewrite (bool_decide_eq_true_2 _ Hneeds). simpl negb. cbv iota.
  destruct (NumericTypeMinMaxValueMap numericType) as [numericMin numericMax] eqn:Htable.
  simpl. split; [reflexivity|]. split; [|reflexivity].
  destruct numericType; injection Htable as <- <-; try reflexivity; split; reflexivity.
Qed.

End GridRanges.

(** ** The properties at concrete inputs *)

Section AtInputs.
Import Transforms LayerErrors.

Lemma normalizeByteArray_bytes_witness :
  NormalizeRest.normalizeByteArray
    (NormalizeRest.anArray [(-1)%float; 256.5%float; nan; 3%float]) = [255; 0; 0; 3] /\
  Forall (fun x => 0 <= x < 256)
    (NormalizeRest.normalizeByteArray
       (NormalizeRest.anArray [(-1)%float; 256.5%float; nan; 3%float])).
Proof.
  split; [vm_compute; reflexivity|].
  exact (proj1 (normalizeByteArray_bytes
                  (NormalizeRest.anArray [(-1)%float; 256.5%float; nan; 3%float]) I)).
Defined.

Lemma normalizeInt8Array_bytes_witness :
  NormalizeRest.normalizeInt8Array (NormalizeRest.anArrayBuffer [0; 127; 128; 255])
  = [0; 127; -128; -1] /\
  Forall (fun x => -128 <= x < 128)
    (NormalizeRest.normalizeInt8Array (NormalizeRest.anArrayBuffer [0; 127; 128; 255])).
Proof.
  split; [reflexivity|].
  assert (Hwf : NormalizeRest.wellFormed (NormalizeRest.anArrayBuffer [0; 127; 128; 255])).
  { simpl. repeat constructor; lia. }
  exact (proj1 (normalizeInt8Array_bytes _ Hwf)).
Defined.

Lemma updateFrames_first_tick_witness :
  exists renderFrame f,
    Renderer.defaultFrameId Scenario.robotTree = Some renderFrame /\
    Renderer.renderFrameId (Renderer._updateFrames Scenario.freshRenderer)
      = Some renderFrame /\
    frame Scenario.robotTree renderFrame = Some f /\
    Renderer.fixedFrameId (Renderer._updateFrames Scenario.freshRenderer)
      = Some (id (root Scenario.robotTree f)).
Proof. exact (updateFrames_first_tick Scenario.freshRenderer eq_refl). Defined.

Lemma addMessageEvent_keeps_frames_witness :
  hasFrame
    (Renderer.transformTree
       (Dispatch.addMessageEvent (Handler := nat) (H := Scenario.externals)
          {[ "tf2_msgs/TFMessage" ]} {[ "geometry_msgs/TransformStamped" ]} ∅
          Scenario.freshRenderer
          (Dispatch.asMessage Scenario.emptyRotationMessage)
          "geometry_msgs/TransformStamped").1) "map" = true.
Proof.
  exact (addMessageEvent_keeps_frames (H := Scenario.externals) (Handler := nat)
           {[ "tf2_msgs/TFMessage" ]} {[ "geometry_msgs/TransformStamped" ]} ∅
           Scenario.freshRenderer (Dispatch.asMessage Scenario.emptyRotationMessage)
           "geometry_msgs/TransformStamped" "map" eq_refl).
Defined.

Lemma addMessageEvent_header_frame_witness :
  hasFrame
    (Renderer.transformTree
       (Dispatch.addMessageEvent (Handler := nat) (H := Scenario.externals)
          {[ "tf2_msgs/TFMessage" ]} {[ "geometry_msgs/TransformStamped" ]} ∅
          Scenario.freshRenderer
          (Dispatch.mkMessage (Some (Ros.mkRawHeader None None None)) None None None)
          "visualization_msgs/Marker").1) EmptyString = true.
Proof.
  exact (addMessageEvent_header_frame (H := Scenario.externals) (Handler := nat)
           {[ "tf2_msgs/TFMessage" ]} {[ "geometry_msgs/TransformStamped" ]} ∅
           Scenario.freshRenderer
           (Dispatch.mkMessage (Some (Ros.mkRawHeader None None None)) None None None)
           "visualization_msgs/Marker" (Ros.mkRawHeader None None None) eq_refl).
Defined.

Lemma addDatatypeSubscriptions_registers_witness :
  exists handlers,
    Dispatch.addDatatypeSubscriptions (∅ : gmap string (list nat)) ["a"; "b"; "a"] 7%nat
      !! "a" = Some handlers /\
    7%nat ∈ handlers.
Proof.
  assert (Hnodup : forall datatype handlers,
             (∅ : gmap string (list nat)) !! datatype = Some handlers -> NoDup handlers).
  { intros datatype handlers Hlookup. rewrite lookup_empty in Hlookup. discriminate. }
  assert (Hin : "a" ∈ ["a"; "b"; "a"]) by apply list_elem_of_here.
  exact (proj1 (proj2 (addDatatypeSubscriptions_registers ∅ ["a"; "b"; "a"] 7%nat Hnodup))
           "a" Hin).
Defined.

Lemma addMessageEvent_calls_handler_once_witness :
  exists before after,
    (Dispatch.addMessageEvent (Handler := nat) (H := Scenario.externals)
       {[ "tf2_msgs/TFMessage" ]} {[ "geometry_msgs/TransformStamped" ]}
       (Dispatch.addDatatypeSubscriptions ∅ ["a"; "b"; "a"] 7%nat)
       Scenario.freshRenderer (Dispatch.mkMessage None None None None) "a").2
    = before ++ 7%nat :: after /\
    (7%nat ∉ before) /\ (7%nat ∉ after).
Proof.
  assert (Hnodup : forall datatype handlers,
             (∅ : gmap string (list nat)) !! datatype = Some handlers -> NoDup handlers).
  { intros datatype handlers Hlookup. rewrite lookup_empty in Hlookup. discriminate. }
  assert (Hin : "a" ∈ ["a"; "b"; "a"]) by apply list_elem_of_here.
  exact (addMessageEvent_calls_handler_once (H := Scenario.externals)
           {[ "tf2_msgs/TFMessage" ]} {[ "geometry_msgs/TransformStamped" ]}
           ∅ ["a"; "b"; "a"] 7%nat Scenario.freshRenderer
           (Dispatch.mkMessage None None None None) "a" Hnodup Hin).
Defined.


Lemma startFrame_end_of_tick_diagnostic_witness :
  errorAt
    (SceneExtension.errors
       (SceneExtension.startFrame (H := Scenario.externals) Scenario.robotTree 100
          "base_link" "map"
          ([("a", Scenario.unspecified)]
           ++ ("b", Scenario.unlocked) :: [("c", Scenario.locked)])
          Scenario.noCalls).2)
    ["topics"; "/b"] "MISSING_TRANSFORM" = Some "base_link map nowhere".
Proof.
  assert (Hafter : Forall (fun entry =>
                             SceneExtension.visible (SceneExtension.settings entry.2) = true /\
                             SceneExtension.settingsPath Scenario.unlocked
                             <> SceneExtension.settingsPath entry.2)
                     [("c", Scenario.locked)]).
  { repeat constructor; discriminate. }
  exact (startFrame_end_of_tick_diagnostic (H := Scenario.externals) Scenario.robotTree 100
           "base_link" "map" [("a", Scenario.unspecified)] "b" Scenario.unlocked
           [("c", Scenario.locked)] Scenario.noCalls
           eq_refl Hafter).
Defined.

Lemma getFieldReader_no_color_field_witness :
  FoxgloveGrid._getFieldReader (fun _ _ _ => Some tt) 6
    [FoxgloveGrid.mkPackedElementField "x" 0 FoxgloveGrid.FLOAT32;
     FoxgloveGrid.mkPackedElementField "intensity" 4 FoxgloveGrid.UINT16]
    FoxgloveGrid.flat None
  = inr FoxgloveGrid.zeroReader.
Proof.
  apply getFieldReader_no_color_field; [lia|].
  repeat constructor; simpl; lia.
Defined.

Lemma minMaxColorValues_default_range_witness :
  FoxgloveGrid.minMaxColorValues [FoxgloveGrid.gradient; FoxgloveGrid.colormap]
    (0, 0)%float FoxgloveGrid.gradient None None FoxgloveGrid.INT16
  = ((-32768)%float, (-32769)%float).
Proof.
  assert (Hneeds : FoxgloveGrid.gradient ∈ [FoxgloveGrid.gradient; FoxgloveGrid.colormap])
    by apply list_elem_of_here.
  destruct (minMaxColorValues_default_range [FoxgloveGrid.gradient; FoxgloveGrid.colormap]
              (0, 0)%float FoxgloveGrid.gradient FoxgloveGrid.INT16 Hneeds)
    as (-> & _ & ->).
  reflexivity.
Defined.

End AtInputs.
